(** * The RAMQ billing-code importer (scripts/import_codes.py)

    A shallow embedding of the import script: the per-row record
    transformer, the batch accumulator, the batched upsert with its
    commit-or-rollback handler, and the resource handling around them.

    The script talks to four things it does not define: the input file and
    its csv reader, the [json] library, the psycopg2 driver and the
    PostgreSQL server.  The file is what [open] and the reader make of it: no
    file, or rows followed by the end of the file or by an error of the
    reader.  [json.dumps] is a parameter of the development; the driver's
    [execute_values], the server's treatment of a multi-row upsert and its
    conversion of the term sent for [updated_at] are modelled below, each
    next to the place of the script that uses it. *)

From stdpp Require Import base strings list gmap pretty.
From Stdlib Require Import Lia ZifyNat.

Local Open Scope string_scope.
Local Open Scope list_scope.
Local Open Scope nat_scope.

(** ** Exceptions and the result of a fallible expression *)

(** What the script can raise once the connection is open: [open] on a
    file it cannot open ([OSError]), the reader on what it cannot hand out
    as a row ([CsvError] for the csv module's own error,
    [UnicodeDecodeError] for bytes that are not UTF-8), a subscript [row[k]]
    on a missing column, or an error reported by the driver. *)
Inductive exn :=
| KeyError (key : string)
| DatabaseError
| OSError
| CsvError
| UnicodeDecodeError.

Inductive result (A : Type) :=
| Ok (a : A)
| Raise (e : exn).
Arguments Ok {A} a.
Arguments Raise {A} e.

#[global] Instance result_ret : MRet result := λ A a, Ok a.
#[global] Instance result_bind : MBind result := λ A B k r,
  match r with
  | Ok a => k a
  | Raise e => Raise e
  end.

(** ** Source rows *)

(** A row handed out by [csv.DictReader]: a dict from the names of the
    header to the cells of one line.  The cells are [str]: the lines are as
    wide as the header (the reader fills a shorter line with [None]).  The
    reader gives every row of a file the keys of the header, so a column is
    missing in all rows of a file or in none. *)
Abbreviation row := (gmap string string).

(** [row[k]] *)
Definition getitem (r : row) (k : string) : result string :=
  match r !! k with
  | Some v => Ok v
  | None => Raise (KeyError k)
  end.

(** [s or d] on a [str]: the empty string is falsy. *)
Definition str_or (s d : string) : string :=
  if decide (s = "") then d else s.

(** The header of the documented input file. *)
Definition columns : list string :=
  [ "billing_code"; "place"; "description"; "unit_require"; "tariff_value";
    "extra_unit_value"; "source_file"; "top_level"; "level1_group";
    "level2_group"; "leaf"; "indicators"; "anchor_id" ].

(** The input file as the script meets it.  [open] raises ([NoFile]: the
    path is fixed in the script), or the reader hands out the rows of the
    file in order, until the file is exhausted ([stop] is [None]) or the
    reader raises on what comes next. *)
Inductive source :=
| NoFile
| File (rows : list row) (stop : option exn).

(** ** Target records *)

(** The dict literal handed to [json.dumps]: keys in insertion order. *)
Abbreviation py_dict := (list (string * string)).

Record record := {
  code : string;
  description : string;
  category : string;
  active : bool;
  custom_fields : string;
  updated_by : string
}.

(** ** What the driver sends *)

(** The Python values that occur in the argument tuples of the upsert. *)
Inductive py_value :=
| PyStr (s : string)
| PyBool (b : bool).

(** A value expression in the VALUES list of the statement.  psycopg2
    adapts a [str] to a quoted string literal and a [bool] to a boolean
    literal; a function call can only come from the template or from a
    value wrapped as raw SQL. *)
Inductive sql_term :=
| SqlString (s : string)
| SqlBoolean (b : bool)
| SqlCall (f : string).

Definition adapt (v : py_value) : sql_term :=
  match v with
  | PyStr s => SqlString s
  | PyBool b => SqlBoolean b
  end.

(** [cur.mogrify(template, args)] with the template [execute_values]
    builds for [template=None]: one [%s] per argument.  This is the
    adaptation of values the driver accepts.  It refuses a [str] that holds
    the character NUL; the results below on what a run writes are stated
    for records that are [sendable]. *)
Definition mogrify (args : list py_value) : list sql_term := adapt <$> args.

(** Lines 86-87 and 119-120: the tuple built for one record. *)
Definition args_of (r : record) : list py_value :=
  [ PyStr (code r); PyStr (description r); PyStr (category r);
    PyBool (active r); PyStr (custom_fields r); PyStr "NOW()";
    PyStr (updated_by r) ].

(** The VALUES list of one statement: one row of terms per record. *)
Abbreviation statement := (list (list sql_term)).

Definition statement_of (b : list record) : statement :=
  mogrify <$> (args_of <$> b).

(** [psycopg2.extras._paginate] with [page_size=100], the default that
    [execute_values] uses: a page is handed out when it holds 100 items,
    and a non-empty rest is handed out at the end. *)
Definition page_size : nat := 100.

Fixpoint paginate_from {A} (page : list A) (seq : list A) : list (list A) :=
  match seq with
  | [] => match page with [] => [] | _ => [page] end
  | x :: seq' =>
      let page' := page ++ [x] in
      if decide (length page' = page_size)
      then page' :: paginate_from [] seq'
      else paginate_from page' seq'
  end.

Definition paginate {A} (seq : list A) : list (list A) := paginate_from [] seq.

(** ** The [codes] table and the server *)

(** The columns the upsert writes besides the key, as they were sent.
    For [updated_at] this is the term of the statement; the value that the
    server computes from it is kept apart, in [stamps] below. *)
Record stored := {
  s_description : sql_term;
  s_category : sql_term;
  s_active : sql_term;
  s_custom_fields : sql_term;
  s_updated_at : sql_term;
  s_updated_by : sql_term
}.

(** [code] is the unique key of [codes]. *)
Abbreviation table := (gmap string stored).

(** One VALUES row against the column list
    [(code, description, category, active, custom_fields, updated_at,
    updated_by)]. *)
Definition pg_row (vs : list sql_term) : option (string * stored) :=
  match vs with
  | [SqlString c; d; cat; a; cf; ua; ub] =>
      Some (c, {| s_description := d; s_category := cat; s_active := a;
                  s_custom_fields := cf; s_updated_at := ua;
                  s_updated_by := ub |})
  | _ => None
  end.

(** [ON CONFLICT (code) DO UPDATE SET] every other column to the incoming
    value: the incoming row replaces the stored one. *)
Definition upsert (t : table) (kv : string * stored) : table :=
  <[kv.1 := kv.2]> t.

(** The server on [INSERT ... VALUES rows ON CONFLICT (code) DO UPDATE].
    PostgreSQL rejects the whole statement when two of its rows carry the
    same conflict key ("ON CONFLICT DO UPDATE command cannot affect row a
    second time"); an empty VALUES list is a syntax error.  [None] stands
    for the error the server reports. *)
Definition pg_execute (t : table) (stmt : statement) : option table :=
  match stmt with
  | [] => None
  | _ =>
      rows ← mapM pg_row stmt;
      if decide (NoDup rows.*1) then Some (foldl upsert t rows) else None
  end.

(** The column [updated_at] has the type timestamp.  A string literal in
    its place goes through the input routine of the type, which knows the
    special value now and reads NOW() as the same; like the function call
    NOW(), it stands for the time at which the current transaction started.
    [now] is that time.  Other strings are dates written out, which the
    script never sends: they are left without a value. *)
Definition timestamp_in (now : nat) (v : sql_term) : option nat :=
  match v with
  | SqlString s => if decide (s = "NOW()" ∨ s = "now") then Some now else None
  | SqlCall f => if decide (f = "NOW") then Some now else None
  | SqlBoolean _ => None
  end.

(** The values of [updated_at], as the server holds them, of the rows
    written over the connection. *)
Abbreviation stamps := (gmap string nat).

(** The key and the value of [updated_at] of one VALUES row in a
    transaction started at [now]. *)
Definition pg_row_updated_at (now : nat) (vs : list sql_term)
  : option (string * nat) :=
  match vs with
  | [SqlString c; _; _; _; _; ua; _] => ts ← timestamp_in now ua; Some (c, ts)
  | _ => None
  end.

Definition pg_updated_at (now : nat) (m : stamps) (stmt : statement)
  : option stamps :=
  rows ← mapM (pg_row_updated_at now) stmt;
  Some (foldl (λ m kv, <[kv.1 := kv.2]> m) m rows).

(** The server as a run meets it.  Errors that do not depend on the data
    sent (a lost connection, a constraint of the table, a lock timeout): one
    oracle for the calls of [cur.execute] and one for the calls of
    [conn.commit], each asked with the number of earlier calls of its kind.
    The clock: [server_time i] is the time of the server at which the
    transaction of call [i] of [cur.execute] starts (every flush opens a
    transaction with its statement and ends it with a commit or a
    rollback). *)
Record faults := {
  stmt_fault : nat → bool;
  commit_fault : nat → bool;
  server_time : nat → nat
}.

Definition no_faults : faults :=
  {| stmt_fault := λ _, false; commit_fault := λ _, false;
     server_time := λ i, 1000 + i |}.

(** ** What the run does, in order *)

Inductive message :=
| MsgStart
| MsgBatch (count : nat)
| MsgBatchError
| MsgFinalBatchError
| MsgCompleted (count : nat).

Inductive event :=
| Print (m : message)
| FileOpen
| FileClose
| Execute (stmt : statement)
| Commit
| Rollback
| CursorClose
| ConnClose.

Definition statements (log : list event) : list statement :=
  omap (λ e, match e with Execute s => Some s | _ => None end) log.

#[global] Instance event_commit_dec (e : event) : Decision (e = Commit).
Proof. destruct e; (by left) || (by right). Defined.

Definition commits (log : list event) : nat :=
  length (filter (λ e, e = Commit) log).

(** ** The state of the script *)

(** The connection holds the committed table and the table as the open
    transaction sees it, both as the terms that were sent, and next to each
    the values of [updated_at] that the server gave to the rows written over
    this connection; [batch] and [count] are the script's variables; [log]
    records the calls made so far. *)
Record state := {
  committed : table;
  working : table;
  committed_at : stamps;
  working_at : stamps;
  batch : list record;
  count : nat;
  log : list event
}.

Definition initial (t : table) : state :=
  {| committed := t; working := t; committed_at := ∅; working_at := ∅;
     batch := []; count := 0; log := [] |}.

(** State and exceptions threaded through the statements of the script.
    The state that comes with [Raise] is the state at the raise. *)
Definition prog (A : Type) : Type := state → state * result A.

#[global] Instance prog_ret : MRet prog := λ A a st, (st, Ok a).
#[global] Instance prog_bind : MBind prog := λ A B k m st,
  match m st with
  | (st', Ok a) => k a st'
  | (st', Raise e) => (st', Raise e)
  end.

Definition lift {A} (r : result A) : prog A := λ st, (st, r).

(** [try: body except Exception: handler] *)
Definition try_except (body : prog unit) (handler : exn → prog unit)
  : prog unit := λ st,
  match body st with
  | (st', Ok tt) => (st', Ok tt)
  | (st', Raise e) => handler e st'
  end.

(** The cleanup of a [with] block: run on both exits of the body. *)
Definition finally {A} (body : prog A) (cleanup : prog unit) : prog A :=
  λ st,
  match body st with
  | (st', r) =>
      match cleanup st' with
      | (st'', Ok tt) => (st'', r)
      | (st'', Raise e) => (st'', Raise e)
      end
  end.

Fixpoint for_each {A} (body : A → prog unit) (l : list A) : prog unit :=
  match l with
  | [] => mret tt
  | x :: l' => body x;; for_each body l'
  end.

Definition emit (e : event) : prog unit := λ st,
  ({| committed := committed st; working := working st;
      committed_at := committed_at st; working_at := working_at st;
      batch := batch st; count := count st; log := log st ++ [e] |}, Ok tt).

Definition get_batch : prog (list record) := λ st, (st, Ok (batch st)).
Definition get_count : prog nat := λ st, (st, Ok (count st)).

Definition set_batch (b : list record) : prog unit := λ st,
  ({| committed := committed st; working := working st;
      committed_at := committed_at st; working_at := working_at st;
      batch := b; count := count st; log := log st |}, Ok tt).

Definition set_count (n : nat) : prog unit := λ st,
  ({| committed := committed st; working := working st;
      committed_at := committed_at st; working_at := working_at st;
      batch := batch st; count := n; log := log st |}, Ok tt).

(** ** The connection *)

Section Connection.

Variable env : faults.

(** [cur.execute(stmt)] inside the open transaction.  The server rejects
    the statement on a fault, on a key that occurs twice, and on a term it
    cannot convert to the type of its column. *)
Definition cur_execute (stmt : statement) : prog unit := λ st,
  let i := length (statements (log st)) in
  let st1 :=
    {| committed := committed st; working := working st;
       committed_at := committed_at st; working_at := working_at st;
       batch := batch st; count := count st;
       log := log st ++ [Execute stmt] |} in
  if stmt_fault env i then (st1, Raise DatabaseError)
  else match pg_execute (working st) stmt,
             pg_updated_at (server_time env i) (working_at st) stmt with
       | Some t, Some ua =>
           ({| committed := committed st; working := t;
               committed_at := committed_at st; working_at := ua;
               batch := batch st; count := count st; log := log st1 |}, Ok tt)
       | _, _ => (st1, Raise DatabaseError)
       end.

(** [conn.commit()] *)
Definition conn_commit : prog unit := λ st,
  let l := log st ++ [Commit] in
  if commit_fault env (commits (log st))
  then ({| committed := committed st; working := working st;
           committed_at := committed_at st; working_at := working_at st;
           batch := batch st; count := count st; log := l |},
        Raise DatabaseError)
  else ({| committed := working st; working := working st;
           committed_at := working_at st; working_at := working_at st;
           batch := batch st; count := count st; log := l |}, Ok tt).

(** [conn.rollback()] *)
Definition conn_rollback : prog unit := λ st,
  ({| committed := committed st; working := committed st;
      committed_at := committed_at st; working_at := committed_at st;
      batch := batch st; count := count st; log := log st ++ [Rollback] |},
   Ok tt).

(** [execute_values(cur, sql, argslist, template=None)]: one statement per
    page of the argument list. *)
Definition execute_values (argslist : list (list py_value)) : prog unit :=
  for_each (λ page, cur_execute (mogrify <$> page)) (paginate argslist).

End Connection.

(** ** The script *)

Section Importer.

Variable env : faults.

(** [json.dumps], from the standard library: not part of the script. *)
Variable json_dumps : py_dict → string.

(** The payload dict of lines 49-61, before serialisation.  The
    subscripts are evaluated in the order of the literal. *)
Definition custom_fields_dict (r : row) (billing_code place : string)
  : result py_dict :=
  tariff_value ← getitem r "tariff_value";
  extra_unit_value ← getitem r "extra_unit_value";
  source_file ← getitem r "source_file";
  top_level ← getitem r "top_level";
  level1_group ← getitem r "level1_group";
  level2_group ← getitem r "level2_group";
  leaf ← getitem r "leaf";
  indicators ← getitem r "indicators";
  anchor_id ← getitem r "anchor_id";
  Ok [ ("billing_code", billing_code);
       ("place", place);
       ("tariff_value", tariff_value);
       ("extra_unit_value", extra_unit_value);
       ("source_file", source_file);
       ("top_level", top_level);
       ("level1_group", level1_group);
       ("level2_group", level2_group);
       ("leaf", leaf);
       ("indicators", indicators);
       ("anchor_id", anchor_id) ].

(** Lines 38-41: the composite code. *)
Definition make_code (billing_code place : string) : string :=
  if decide (place = "all") then billing_code
  else billing_code +:+ "-" +:+ place.

(** Lines 34-63: the body of the loop up to the record. *)
Definition transform (r : row) : result record :=
  billing_code ← getitem r "billing_code";
  raw_place ← getitem r "place";
  let place := str_or raw_place "all" in
  let code := make_code billing_code place in
  raw_description ← getitem r "description";
  unit_require ← getitem r "unit_require";
  payload ← custom_fields_dict r billing_code place;
  Ok {| code := code;
        description := str_or raw_description "";
        category := place;
        active := bool_decide (unit_require = "FALSE");
        custom_fields := json_dumps payload;
        updated_by := "system_import" |}.

(** Lines 69-97: the flush inside the loop. *)
Definition flush_in_loop : prog unit :=
  try_except
    (b ← get_batch;
     execute_values env (args_of <$> b);;
     c ← get_count;
     set_count (c + length b);;
     c ← get_count;
     emit (Print (MsgBatch c));;
     conn_commit env)
    (λ e, emit (Print MsgBatchError);; conn_rollback).

(** Lines 32-99: the body of [for row in reader]. *)
Definition loop_body (r : row) : prog unit :=
  rec ← lift (transform r);
  b ← get_batch;
  set_batch (b ++ [rec]);;
  b ← get_batch;
  if decide (100 ≤ length b)%nat
  then flush_in_loop;; set_batch []
  else mret tt.

(** Lines 102-129: the flush of the remaining records. *)
Definition final_flush : prog unit :=
  b ← get_batch;
  match b with
  | [] => mret tt
  | _ =>
      try_except
        (execute_values env (args_of <$> b);;
         c ← get_count;
         set_count (c + length b);;
         conn_commit env)
        (λ e, emit (Print MsgFinalBatchError);; conn_rollback)
  end.

(** Lines 26-129: the [with] block.  [open] comes first: when it raises
    there is no file to close.  The loop asks the reader for a row before
    each pass; the flush of the remaining records is reached when the reader
    is exhausted, not when it raises. *)
Definition with_file (src : source) : prog unit :=
  match src with
  | NoFile => lift (Raise OSError)
  | File rows stop =>
      emit FileOpen;;
      finally
        (set_batch [];;
         set_count 0;;
         for_each loop_body rows;;
         match stop with
         | Some e => lift (Raise e)
         | None => final_flush
         end)
        (emit FileClose)
  end.

(** Lines 23-135: the script once the connection and the cursor exist. *)
Definition main (src : source) : prog unit :=
  emit (Print MsgStart);;
  with_file src;;
  c ← get_count;
  emit (Print (MsgCompleted c));;
  emit CursorClose;;
  emit ConnClose.

(** A run on the file [src] against a server whose [codes] table is [t]. *)
Definition run_source (src : source) (t : table) : state * result unit :=
  main src (initial t).

(** A run on a file that opens and that the reader reads to its end,
    handing out [rows]. *)
Definition run (rows : list row) (t : table) : state * result unit :=
  run_source (File rows None) t.

End Importer.

(** The state in which the loop is entered: the banner is printed, the
    file is open, [batch] is empty and [count] is zero. *)
Definition loop_entry (t : table) : state :=
  {| committed := t; working := t; committed_at := ∅; working_at := ∅;
     batch := []; count := 0; log := [Print MsgStart; FileOpen] |}.

(** [st] with further calls in its log. *)
Definition log_append (st : state) (l : list event) : state :=
  {| committed := committed st; working := working st;
     committed_at := committed_at st; working_at := working_at st;
     batch := batch st; count := count st; log := log st ++ l |}.

(** What the table holds for a record once its row of the statement is
    written: the terms of [mogrify (args_of rec)] after the key. *)
Definition stored_of (rec : record) : stored :=
  {| s_description := SqlString (description rec);
     s_category := SqlString (category rec);
     s_active := SqlBoolean (active rec);
     s_custom_fields := SqlString (custom_fields rec);
     s_updated_at := SqlString "NOW()";
     s_updated_by := SqlString (updated_by rec) |}.

(** The upsert of one record. *)
Definition upsert_record (t : table) (rec : record) : table :=
  <[code rec := stored_of rec]> t.

(** The calls made while the file is open: statements, commits, rollbacks
    and console lines. *)
Definition db_event (e : event) : Prop :=
  match e with
  | Execute _ | Commit | Rollback | Print _ => True
  | FileOpen | FileClose | CursorClose | ConnClose => False
  end.

(** No hyphen among the characters of [s]. *)
Fixpoint hyphen_free (s : string) : bool :=
  match s with
  | EmptyString => true
  | String c s' => negb (Ascii.eqb c (Ascii.ascii_of_nat 45)) && hyphen_free s'
  end.

(** No character NUL in [s]. *)
Fixpoint nul_free (s : string) : bool :=
  match s with
  | EmptyString => true
  | String c s' => negb (Ascii.eqb c (Ascii.ascii_of_nat 0)) && nul_free s'
  end.

(** A record whose strings the driver adapts: psycopg2 raises on a [str]
    that holds NUL, before anything is sent. *)
Definition sendable (rec : record) : Prop :=
  nul_free (code rec) = true ∧ nul_free (description rec) = true ∧
  nul_free (category rec) = true ∧ nul_free (custom_fields rec) = true ∧
  nul_free (updated_by rec) = true.

(** No transaction is open: the connection sees what is committed. *)
Definition idle (st : state) : Prop :=
  committed st = working st ∧ committed_at st = working_at st.

(** The values of [updated_at] after the records of [b] were written in a
    transaction started at [now]. *)
Definition stamp_batch (now : nat) (m : stamps) (b : list record) : stamps :=
  foldl (λ m rec, <[code rec := now]> m) m b.

(** ** The flushes of a run, replayed *)

(** What a run has done so far to the server and to [count]: the calls of
    [cur.execute] and of [conn.commit] it made, the committed table with
    its values of [updated_at], and the count. *)
Record progress := {
  p_statements : nat;
  p_commits : nat;
  p_table : table;
  p_updated_at : stamps;
  p_count : nat
}.

Definition progress_of (st : state) : progress :=
  {| p_statements := length (statements (log st));
     p_commits := commits (log st);
     p_table := committed st;
     p_updated_at := committed_at st;
     p_count := count st |}.

Definition start (t : table) : progress :=
  {| p_statements := 0; p_commits := 0; p_table := t; p_updated_at := ∅;
     p_count := 0 |}.

(** One flush of the batch [b], at lines 69-97 or 103-129: the statement
    fails on a fault or on a code that occurs twice in [b], and nothing is
    counted; else [count] is raised and the commit is tried. *)
Definition flush_step (env : faults) (pr : progress) (b : list record)
  : progress :=
  if stmt_fault env (p_statements pr) || negb (bool_decide (NoDup (code <$> b)))
  then {| p_statements := S (p_statements pr); p_commits := p_commits pr;
          p_table := p_table pr; p_updated_at := p_updated_at pr;
          p_count := p_count pr |}
  else {| p_statements := S (p_statements pr); p_commits := S (p_commits pr);
          p_table := if commit_fault env (p_commits pr) then p_table pr
                     else foldl upsert_record (p_table pr) b;
          p_updated_at :=
            if commit_fault env (p_commits pr) then p_updated_at pr
            else stamp_batch (server_time env (p_statements pr))
                   (p_updated_at pr) b;
          p_count := p_count pr + length b |}.

Definition replay (env : faults) (pr : progress) (pages : list (list record))
  : progress :=
  foldl (flush_step env) pr pages.

(** ** Concrete inputs *)

(** A serialiser to run the definitions on: it renders the dict as
    [json.dumps] does when no value needs an escape. *)
Definition quote_char : string := String (Ascii.ascii_of_nat 34) "".

Definition quoted (s : string) : string := quote_char +:+ s +:+ quote_char.

Definition plain_dumps (d : py_dict) : string :=
  "{" +:+ String.concat ", " ((λ kv, quoted kv.1 +:+ ": " +:+ quoted kv.2) <$> d)
  +:+ "}".

(** A full-width row of the documented file. *)
Definition sample_row (billing_code place desc unit_require : string) : row :=
  list_to_map
    [ ("billing_code", billing_code); ("place", place); ("description", desc);
      ("unit_require", unit_require); ("tariff_value", "12.50");
      ("extra_unit_value", "0"); ("source_file", "ramq.csv");
      ("top_level", "A"); ("level1_group", "B"); ("level2_group", "C");
      ("leaf", "D"); ("indicators", "E"); ("anchor_id", "F") ].

(** [n] full-width rows with the billing codes 0, 1, ... and place O. *)
Definition numbered_rows (n : nat) : list row :=
  (λ i, sample_row (pretty i) "O" "visit" "FALSE") <$> seq 0 n.

(** The records of a list of rows, or the first exception. *)
Fixpoint transform_rows (json_dumps : py_dict → string) (rows : list row)
  : result (list record) :=
  match rows with
  | [] => Ok []
  | r :: rows' =>
      rec ← transform json_dumps r;
      recs ← transform_rows json_dumps rows';
      Ok (rec :: recs)
  end.

(** A server on which every commit fails. *)
Definition commit_faults : faults :=
  {| stmt_fault := λ _, false; commit_fault := λ _, true;
     server_time := λ i, 1000 + i |}.

(** A server that rejects every statement. *)
Definition stmt_faults : faults :=
  {| stmt_fault := λ _, true; commit_fault := λ _, false;
     server_time := λ i, 1000 + i |}.

(** A server that fails on the first statement and on the second commit. *)
Definition flaky_faults : faults :=
  {| stmt_fault := λ i, bool_decide (i = 0);
     commit_fault := λ j, bool_decide (j = 1);
     server_time := λ i, 1000 + i |}.

(** The server of a later day, without faults. *)
Definition later_server : faults :=
  {| stmt_fault := λ _, false; commit_fault := λ _, false;
     server_time := λ i, 2000 + i |}.

(** A file of 120 well-formed rows followed by bytes that are not UTF-8. *)
Definition garbled_file : source :=
  File (numbered_rows 120) (Some UnicodeDecodeError).

(** 100 numbered rows, then the first billing code again with a revised
    description: the two rows with code 0-O fall in different batches. *)
Definition revised_rows : list row :=
  numbered_rows 100 ++ [sample_row "0" "O" "revised" "FALSE"].

(** Two rows of one batch that derive the same code. *)
Definition clashing_rows : list row :=
  [ sample_row "A" "" "first" "FALSE"; sample_row "A" "all" "second" "FALSE" ].

(** A file whose header lacks the column anchor_id. *)
Definition short_header_rows : list row :=
  [ delete "anchor_id" (sample_row "ABC123" "" "visit" "FALSE") ].

(** The keys of the payload, in the order of the dict literal. *)
Definition payload_keys : list string :=
  [ "billing_code"; "place"; "tariff_value"; "extra_unit_value";
    "source_file"; "top_level"; "level1_group"; "level2_group"; "leaf";
    "indicators"; "anchor_id" ].

(** The claim on [custom_fields] in the spec's words: the serialised dict has
    the keys of the payload, each with the row's own cell. *)
Definition payload_verbatim (json_dumps : py_dict → string) (r : row)
    (rec : record) : Prop :=
  ∃ d : py_dict,
    custom_fields rec = json_dumps d ∧
    d.*1 = payload_keys ∧
    ∀ k v, (k, v) ∈ d → r !! k = Some v.

(** * Properties *)

(** ** The record transformer *)

Section Transformer.

Variable json_dumps : py_dict → string.

Lemma getitem_Ok (r : row) k v : getitem r k = Ok v ↔ r !! k = Some v.
Proof. unfold getitem. destruct (r !! k); naive_solver. Qed.

Lemma rbind_Ok {A B} (m : result A) (k : A → result B) b :
  m ≫= k = Ok b → ∃ a, m = Ok a ∧ k a = Ok b.
Proof. destruct m; [eauto | discriminate]. Qed.

(** What a successful [transform] read and what it built. *)
Lemma transform_Ok (r : row) (rec : record) :
  transform json_dumps r = Ok rec →
  ∃ bc pl de ur tv eu sf tl g1 g2 lf ind an,
    r !! "billing_code" = Some bc ∧ r !! "place" = Some pl ∧
    r !! "description" = Some de ∧ r !! "unit_require" = Some ur ∧
    r !! "tariff_value" = Some tv ∧ r !! "extra_unit_value" = Some eu ∧
    r !! "source_file" = Some sf ∧ r !! "top_level" = Some tl ∧
    r !! "level1_group" = Some g1 ∧ r !! "level2_group" = Some g2 ∧
    r !! "leaf" = Some lf ∧ r !! "indicators" = Some ind ∧
    r !! "anchor_id" = Some an ∧
    rec = {| code := make_code bc (str_or pl "all");
             description := str_or de "";
             category := str_or pl "all";
             active := bool_decide (ur = "FALSE");
             custom_fields := json_dumps
               [ ("billing_code", bc); ("place", str_or pl "all");
                 ("tariff_value", tv); ("extra_unit_value", eu);
                 ("source_file", sf); ("top_level", tl);
                 ("level1_group", g1); ("level2_group", g2); ("leaf", lf);
                 ("indicators", ind); ("anchor_id", an) ];
             updated_by := "system_import" |}.
Proof.
  unfold transform, custom_fields_dict. intros H.
  repeat (apply rbind_Ok in H as (? & ?%getitem_Ok & H)).
  apply rbind_Ok in H as (d & Hd & H).
  repeat (apply rbind_Ok in Hd as (? & ?%getitem_Ok & Hd)).
  injection Hd as <-. injection H as <-.
  repeat eexists; eassumption.
Qed.

(** A row with every column of the header is transformed. *)
Lemma transform_total (r : row) :
  Forall (λ k, is_Some (r !! k)) columns → ∃ rec, transform json_dumps r = Ok rec.
Proof.
  unfold columns. rewrite !Forall_cons. intros H. destruct_and!.
  repeat match goal with E : is_Some _ |- _ => destruct E as [? E] end.
  unfold transform, custom_fields_dict, getitem.
  repeat match goal with E : _ !! _ = Some _ |- _ => rewrite E; clear E end.
  cbn. eauto.
Qed.

(** C1. The derived code is [billing_code] when [place] is empty or the
    literal all, and [billing_code], a hyphen and [place] for every other
    place. *)
Theorem code_rule (r : row) (rec : record) (bc pl : string) :
  transform json_dumps r = Ok rec →
  r !! "billing_code" = Some bc →
  r !! "place" = Some pl →
  (pl = "" ∨ pl = "all" → code rec = bc) ∧
  (pl ≠ "" → pl ≠ "all" → code rec = bc +:+ "-" +:+ pl).
Proof.
  intros (? & ? & ? & ? & ? & ? & ? & ? & ? & ? & ? & ? & ? & Hrec)%transform_Ok
    Hbc Hpl.
  destruct_and!. simplify_eq. cbn. unfold make_code, str_or. split.
  - intros [-> | ->]; by repeat case_decide.
  - intros. by repeat case_decide.
Qed.

(** C2. [active] is true exactly when [unit_require] is the string FALSE,
    compared as strings. *)
Theorem active_iff_unit_require (r : row) (rec : record) (ur : string) :
  transform json_dumps r = Ok rec →
  r !! "unit_require" = Some ur →
  active rec = true ↔ ur = "FALSE".
Proof.
  intros (? & ? & ? & ? & ? & ? & ? & ? & ? & ? & ? & ? & ? & Hrec)%transform_Ok
    Hur.
  destruct_and!. simplify_eq. cbn. apply bool_decide_eq_true.
Qed.

(** C5, as the script has it. The payload is the serialised dict with
    exactly the eleven keys; every key but [place] holds the row's own cell,
    and [place] holds the row's place with the empty string replaced by
    all. *)
Theorem custom_fields_payload (r : row) (rec : record) :
  transform json_dumps r = Ok rec →
  ∃ (d : py_dict) (pl : string),
    custom_fields rec = json_dumps d ∧
    d.*1 = payload_keys ∧
    (∀ k v, (k, v) ∈ d → k ≠ "place" → r !! k = Some v) ∧
    r !! "place" = Some pl ∧
    ("place", str_or pl "all") ∈ d.
Proof.
  intros (bc & pl & ? & ? & ? & ? & ? & ? & ? & ? & ? & ? & ? & Hrec)%transform_Ok.
  destruct_and!. subst rec. cbn. eexists _, pl.
  split; [reflexivity|]. split; [reflexivity|]. split; [|split; [done|]].
  - intros k v Hin Hk. repeat (apply elem_of_cons in Hin as [Hin | Hin]);
      try (by simplify_eq). by apply elem_of_nil in Hin.
  - set_solver.
Qed.

(** C9. The category is never the empty string: an empty place becomes
    all before it is assigned. *)
Theorem category_nonempty (r : row) (rec : record) :
  transform json_dumps r = Ok rec →
  category rec ≠ "" ∧ (r !! "place" = Some "" → category rec = "all").
Proof.
  intros (? & pl & ? & ? & ? & ? & ? & ? & ? & ? & ? & ? & ? & Hrec)%transform_Ok.
  destruct_and!. subst rec. cbn. unfold str_or. split.
  - by case_decide.
  - intros. by simplify_eq.
Qed.

(** C10. Two rows that differ only in that one has the empty place and the
    other the place all are transformed alike: same record, or the same
    exception. *)
Theorem empty_place_indistinguishable (r : row) :
  r !! "place" = Some "" →
  transform json_dumps (<["place" := "all"]> r) = transform json_dumps r.
Proof.
  intros Hpl. unfold transform, custom_fields_dict, getitem.
  rewrite lookup_insert_eq, Hpl.
  by rewrite !lookup_insert_ne by done.
Qed.

End Transformer.

(** C5, as the claim words it, fails on a row with an empty place: the
    payload carries all where the row has the empty string. *)
Lemma payload_place_not_verbatim :
  ∃ rec, transform plain_dumps (sample_row "ABC123" "" "visit" "FALSE") = Ok rec ∧
         ¬ payload_verbatim plain_dumps (sample_row "ABC123" "" "visit" "FALSE") rec.
Proof.
  eexists. split; [vm_compute; reflexivity|].
  intros (d & Hd & Hkeys & Hv).
  unfold payload_keys in Hkeys.
  repeat (destruct d as [|[? ?] d]; [discriminate Hkeys|]).
  destruct d; [|discriminate Hkeys]. simplify_eq/=.
  repeat match goal with
  | H : ∀ k v, (k, v) ∈ ?l → _ |- _ =>
      match l with
      | context [(?k0, ?v0)] =>
          assert (sample_row "ABC123" "" "visit" "FALSE" !! k0 = Some v0)
            as Hx by (apply H; set_solver);
          vm_compute in Hx; injection Hx as <-
      end
  end.
  vm_compute in Hd. discriminate Hd.
Qed.

(** ** The batches of a run *)

#[local] Arguments Nat.div : simpl never.
#[local] Arguments Nat.modulo : simpl never.
#[local] Arguments Nat.mul : simpl never.

Section Run.
Variable env : faults.
Variable json_dumps : py_dict → string.

Lemma paginate_from_short {A} (page seq : list A) :
  length page + length seq ≤ page_size → page ++ seq ≠ [] →
  paginate_from page seq = [page ++ seq].
Proof.
  revert page. induction seq as [|x seq IH]; intros page Hlen Hne; cbn.
  - rewrite app_nil_r in *. by destruct page.
  - cbn in Hlen. case_decide as Hfull.
    + rewrite length_app in Hfull. cbn in Hfull.
      assert (seq = []) as -> by (apply length_zero_iff_nil; lia).
      done.
    + rewrite (IH (page ++ [x])).
      * by rewrite <-app_assoc.
      * rewrite length_app. cbn. lia.
      * by destruct page.
Qed.

Lemma paginate_from_fill {A} (page l1 l2 : list A) :
  length page + length l1 = page_size → l1 ≠ [] →
  paginate_from page (l1 ++ l2) = (page ++ l1) :: paginate_from [] l2.
Proof.
  revert page. induction l1 as [|x l1 IH]; intros page Hlen Hne; [done|].
  cbn in *. rewrite length_app. cbn. case_decide as Hfull.
  - assert (l1 = []) as -> by (apply length_zero_iff_nil; lia). done.
  - rewrite IH.
    + by rewrite <-app_assoc.
    + rewrite length_app. cbn. lia.
    + intros ->. cbn in Hlen. lia.
Qed.

Lemma paginate_pages {A} (pages : list (list A)) (b : list A) :
  Forall (λ p, length p = page_size) pages →
  length b < page_size →
  paginate (concat pages ++ b) = pages ++ match b with [] => [] | _ => [b] end.
Proof.
  intros Hfa Hlen. unfold paginate.
  induction Hfa as [|p pages Hp _ IH]; cbn [concat app].
  - destruct b as [|x b]; [done|].
    rewrite paginate_from_short; [done|cbn in *; lia|done].
  - rewrite <-app_assoc, paginate_from_fill, IH; [done|done|].
    intros ->. cbn in Hp. unfold page_size in Hp. lia.
Qed.

Lemma statements_app (l1 l2 : list event) :
  statements (l1 ++ l2) = statements l1 ++ statements l2.
Proof. apply omap_app. Qed.

(** The server converts the term sent for [updated_at] to the time of the
    transaction, for every record of the statement. *)
Lemma pg_updated_at_statement_of (now : nat) (m : stamps) (b : list record) :
  pg_updated_at now m (statement_of b) = Some (stamp_batch now m b).
Proof.
  unfold pg_updated_at.
  assert (mapM (pg_row_updated_at now) (statement_of b)
          = Some ((λ rec, (code rec, now)) <$> b)) as ->.
  { apply mapM_Some. unfold statement_of. rewrite <-list_fmap_compose.
    apply Forall2_fmap, Forall_Forall2_diag, Forall_forall. by intros. }
  cbn. f_equal. unfold stamp_batch. by rewrite foldl_fmap.
Qed.

Lemma execute_values_single (l : list (list py_value)) (st : state) :
  0 < length l ≤ page_size →
  execute_values env l st = cur_execute env (mogrify <$> l) st.
Proof.
  intros Hlen. unfold execute_values, paginate.
  rewrite paginate_from_short; [|cbn; lia|by destruct l; [cbn in Hlen; lia|]].
  cbn. unfold mbind, prog_bind, mret, prog_ret.
  by destruct (cur_execute env (mogrify <$> l) st) as [? [[]|]].
Qed.

(** The three ways the flush inside the loop ends.  A failed statement
    leaves [count] alone; a failed commit comes after [count] was raised. *)
Lemma flush_in_loop_cases (st : state) :
  0 < length (batch st) ≤ page_size →
  ∃ st',
    flush_in_loop env st = (st', Ok tt) ∧ batch st' = batch st ∧
    ( (stmt_fault env (length (statements (log st))) = true ∨
       pg_execute (working st) (statement_of (batch st)) = None) ∧
      committed st' = committed st ∧ working st' = committed st ∧
      count st' = count st ∧
      log st' = log st ++ [Execute (statement_of (batch st));
                           Print MsgBatchError; Rollback]
    ∨ (∃ n, commit_fault env n = true) ∧
      committed st' = committed st ∧ working st' = committed st ∧
      count st' = count st + length (batch st) ∧
      log st' = log st ++ [Execute (statement_of (batch st));
                           Print (MsgBatch (count st + length (batch st)));
                           Commit; Print MsgBatchError; Rollback]
    ∨ stmt_fault env (length (statements (log st))) = false ∧
      (∃ n, commit_fault env n = false) ∧
      pg_execute (working st) (statement_of (batch st)) = Some (committed st') ∧
      working st' = committed st' ∧
      count st' = count st + length (batch st) ∧
      log st' = log st ++ [Execute (statement_of (batch st));
                           Print (MsgBatch (count st + length (batch st)));
                           Commit] ).
Proof.
  intros Hlen. unfold flush_in_loop, try_except.
  unfold mbind, prog_bind, get_batch.
  rewrite execute_values_single by (by rewrite length_fmap).
  unfold cur_execute. fold (statement_of (batch st)).
  cbv zeta. rewrite pg_updated_at_statement_of.
  destruct (stmt_fault env _) eqn:Hsf.
  { cbn. eexists; split; [done|]. split; [done|]. left. cbn.
    rewrite <-!app_assoc. eauto 10. }
  destruct (pg_execute _ _) as [t|] eqn:Hpg.
  2:{ cbn. eexists; split; [done|]. split; [done|]. left. cbn.
      rewrite <-!app_assoc. eauto 10. }
  cbn. unfold conn_commit. destruct (commit_fault env _) eqn:Hcf; cbn.
  - eexists; split; [done|]. split; [done|]. right; left. cbn.
    rewrite <-!app_assoc. eauto 10.
  - eexists; split; [done|]. split; [done|]. right; right. cbn.
    rewrite <-!app_assoc. eauto 10.
Qed.

Lemma flush_in_loop_spec (st : state) :
  0 < length (batch st) ≤ page_size →
  ∃ st' l, flush_in_loop env st = (st', Ok tt) ∧
           batch st' = batch st ∧
           log st' = log st ++ l ∧
           statements l = [statement_of (batch st)] ∧
           Forall db_event l.
Proof.
  intros Hlen.
  destruct (flush_in_loop_cases st Hlen) as (st' & Hrun & Hb & Hcases).
  destruct Hcases as [(_ & _ & _ & _ & Hl)|[(_ & _ & _ & _ & Hl)|(_ & _ & _ & _ & _ & Hl)]];
    eexists st', _; (split; [done|]); (split; [done|]); (split; [exact Hl|]);
    (split; [done|]); repeat constructor.
Qed.

Lemma final_flush_spec (st : state) :
  length (batch st) ≤ page_size →
  ∃ st' l, final_flush env st = (st', Ok tt) ∧
           log st' = log st ++ l ∧
           statements l = match batch st with [] => [] | b => [statement_of b] end ∧
           Forall db_event l.
Proof.
  intros Hlen. unfold final_flush, try_except.
  unfold mbind, prog_bind, get_batch.
  destruct (batch st) as [|rec b] eqn:Hb.
  { exists st, []. by rewrite app_nil_r. }
  rewrite execute_values_single by (rewrite length_fmap; cbn in *; lia).
  unfold cur_execute. rewrite Hb. fold (statement_of (rec :: b)).
  cbv zeta. rewrite pg_updated_at_statement_of.
  destruct (stmt_fault env _).
  { cbn. eexists _, _. split; [done|]. cbn. rewrite <-!app_assoc.
    split; [done|]. split; [done|]. repeat constructor. }
  destruct (pg_execute _ _).
  2:{ cbn. eexists _, _. split; [done|]. cbn. rewrite <-!app_assoc.
      split; [done|]. split; [done|]. repeat constructor. }
  cbn. unfold conn_commit. destruct (commit_fault env _); cbn.
  all: eexists _, _; (split; [done|]); cbn; rewrite <-?app_assoc;
    (split; [done|]); (split; [done|]); repeat constructor.
Qed.

Lemma loop_body_spec (r : row) (rec : record) (st : state) :
  transform json_dumps r = Ok rec →
  length (batch st) < page_size →
  ∃ st' l, loop_body env json_dumps r st = (st', Ok tt) ∧
    log st' = log st ++ l ∧ Forall db_event l ∧
    if decide (S (length (batch st)) = page_size)
    then batch st' = [] ∧ statements l = [statement_of (batch st ++ [rec])]
    else batch st' = batch st ++ [rec] ∧ l = [].
Proof.
  intros Hrec Hlen. unfold loop_body, lift.
  unfold mbind at 1. unfold prog_bind at 1. rewrite Hrec.
  unfold mbind, prog_bind, get_batch, set_batch. cbn [batch].
  rewrite length_app. cbn [length]. unfold page_size in *.
  case_decide as Hfull; case_decide as Hfull'; try lia.
  - match goal with |- context [flush_in_loop env ?s] =>
      destruct (flush_in_loop_spec s) as (st' & l & -> & Hb & Hl & Hs & Hfa) end.
    { cbn. rewrite length_app. cbn. unfold page_size. lia. }
    eexists _, l; split; [done|]. cbn in *. done.
  - eexists _, []. split; [done|]. cbn. by rewrite app_nil_r.
Qed.

Lemma loop_body_raise (r : row) (e : exn) (st : state) :
  transform json_dumps r = Raise e →
  loop_body env json_dumps r st = (st, Raise e).
Proof.
  intros Hr. unfold loop_body, lift.
  unfold mbind at 1. unfold prog_bind at 1. by rewrite Hr.
Qed.

Lemma loop_spec (rows : list row) (recs : list record) (st : state) :
  Forall2 (λ r rec, transform json_dumps r = Ok rec) rows recs →
  length (batch st) < page_size →
  ∃ st' l pages,
    for_each (loop_body env json_dumps) rows st = (st', Ok tt) ∧
    log st' = log st ++ l ∧ Forall db_event l ∧
    statements l = statement_of <$> pages ∧
    Forall (λ p, length p = page_size) pages ∧
    concat pages ++ batch st' = batch st ++ recs ∧
    length (batch st') < page_size.
Proof.
  intros Hrows. revert st.
  induction Hrows as [|r rec rows recs Hrec _ IH]; intros st Hlen.
  - exists st, [], []. cbn. by rewrite !app_nil_r.
  - cbn [for_each]. unfold mbind, prog_bind.
    destruct (loop_body_spec r rec st Hrec Hlen)
      as (st1 & l1 & -> & Hl1 & Hfa1 & Hstep).
    case_decide as Hfull.
    + destruct Hstep as [Hb Hs].
      destruct (IH st1) as (st' & l & pages & -> & Hl & Hfal & Hs' & Hfa & Hcat & Hlen').
      { rewrite Hb. cbn. unfold page_size. lia. }
      exists st', (l1 ++ l), ((batch st ++ [rec]) :: pages).
      split; [done|]. rewrite Hl, Hl1, Hb in *.
      split; [by rewrite <-app_assoc|].
      split; [by apply Forall_app|].
      split; [by rewrite statements_app, Hs, Hs'|].
      split; [constructor; [rewrite length_app; cbn; lia|done]|].
      split; [|done]. cbn in *. by rewrite <-!app_assoc, Hcat.
    + destruct Hstep as [Hb ->].
      destruct (IH st1) as (st' & l & pages & -> & Hl & Hfal & Hs' & Hfa & Hcat & Hlen').
      { rewrite Hb, length_app. cbn. lia. }
      exists st', l, pages. split; [done|]. rewrite Hl, Hl1, Hb in *.
      split; [by rewrite app_nil_r|]. split; [done|]. split; [done|].
      split; [done|]. split; [|done].
      by rewrite Hcat, <-app_assoc.
Qed.

(** The loop on any file: it returns, or it raises at the first row that
    lacks a column; up to there only the database is called. *)
Lemma loop_any (rows : list row) (st : state) :
  length (batch st) < page_size →
  ∃ st' res l,
    for_each (loop_body env json_dumps) rows st = (st', res) ∧
    log st' = log st ++ l ∧ Forall db_event l ∧
    (res = Ok tt → length (batch st') < page_size).
Proof.
  revert st. induction rows as [|r rows IH]; intros st Hlen.
  - exists st, (Ok tt), []. cbn. by rewrite app_nil_r.
  - cbn [for_each]. unfold mbind, prog_bind.
    destruct (transform json_dumps r) as [rec|e] eqn:Hr.
    + destruct (loop_body_spec r rec st Hr Hlen)
        as (st1 & l1 & -> & Hl1 & Hfa1 & Hstep).
      destruct (IH st1) as (st' & res & l & -> & Hl & Hfal & Hres).
      { unfold page_size in *. case_decide; destruct Hstep as [-> _]; cbn;
          [lia|rewrite length_app; cbn; lia]. }
      exists st', res, (l1 ++ l). split; [done|].
      rewrite Hl, Hl1, <-app_assoc. split; [done|]. split; [|done].
      by apply Forall_app.
    + rewrite (loop_body_raise r e st Hr).
      exists st, (Raise e), []. rewrite app_nil_r. done.
Qed.

Lemma statement_of_app (b1 b2 : list record) :
  statement_of (b1 ++ b2) = statement_of b1 ++ statement_of b2.
Proof. unfold statement_of. by rewrite !fmap_app. Qed.

Lemma concat_statement_of (pages : list (list record)) :
  concat (statement_of <$> pages) = statement_of (concat pages).
Proof.
  induction pages as [|p pages IH]; [done|].
  change (statement_of p ++ concat (statement_of <$> pages) =
          statement_of (p ++ concat pages)).
  by rewrite statement_of_app, IH.
Qed.

Lemma length_concat_pages {A} (pages : list (list A)) :
  Forall (λ p, length p = page_size) pages →
  length (concat pages) = page_size * length pages.
Proof.
  induction 1 as [|p pages Hp _ IH]; cbn; [lia|].
  rewrite length_app, IH, Hp. unfold page_size. lia.
Qed.


(** The run on a file that opens: the loop, then the reader's error or
    the flush of the remaining records; the file is closed on both exits,
    the cursor and the connection on the normal one. *)
Lemma run_source_unfold (rows : list row) (stop : option exn) (t : table) :
  run_source env json_dumps (File rows stop) t =
  match (for_each (loop_body env json_dumps) rows;;
         match stop with
         | Some e => lift (Raise e)
         | None => final_flush env
         end) (loop_entry t) with
  | (st, Ok tt) =>
      (log_append st [FileClose; Print (MsgCompleted (count st)); CursorClose; ConnClose],
       Ok tt)
  | (st, Raise e) => (log_append st [FileClose], Raise e)
  end.
Proof.
  unfold run_source, main, with_file, finally, initial, loop_entry.
  unfold mbind at 1 2 3 4 5 6. unfold prog_bind at 1 2 3 4 5 6. cbn.
  unfold mbind at 1 2. unfold prog_bind at 1 2. cbn.
  match goal with |- context [mbind ?f ?m ?s] => destruct (mbind f m s) as [st [[]|e]] end.
  - unfold emit, log_append. cbn. by rewrite <-!app_assoc.
  - done.
Qed.

Lemma run_unfold (rows : list row) (t : table) :
  run env json_dumps rows t =
  match (for_each (loop_body env json_dumps) rows;; final_flush env) (loop_entry t) with
  | (st, Ok tt) =>
      (log_append st [FileClose; Print (MsgCompleted (count st)); CursorClose; ConnClose],
       Ok tt)
  | (st, Raise e) => (log_append st [FileClose], Raise e)
  end.
Proof. apply (run_source_unfold rows None). Qed.

(** A run on well-formed rows returns; its statements are full pages of
    the records followed by the rest, and it ends by closing the file, the
    cursor and the connection. *)
Lemma run_ok (rows : list row) (recs : list record) (t : table) :
  Forall2 (λ r rec, transform json_dumps r = Ok rec) rows recs →
  ∃ st l pages b,
    run env json_dumps rows t =
      (log_append st [FileClose; Print (MsgCompleted (count st));
                      CursorClose; ConnClose], Ok tt) ∧
    log st = [Print MsgStart; FileOpen] ++ l ∧ Forall db_event l ∧
    statements l = statement_of <$> (pages ++ match b with [] => [] | _ => [b] end) ∧
    Forall (λ p, length p = page_size) pages ∧
    concat pages ++ b = recs ∧
    length b < page_size.
Proof.
  intros Hrows.
  destruct (loop_spec rows recs (loop_entry t))
    as (st1 & l1 & pages & Hrun & Hl1 & Hfa1 & Hs1 & Hfa & Hcat & Hlen);
    [done|cbn; unfold page_size; lia|].
  destruct (final_flush_spec st1) as (st2 & l2 & Hfin & Hl2 & Hs2 & Hfa2); [lia|].
  exists st2, (l1 ++ l2), pages, (batch st1).
  split.
  { rewrite run_unfold. unfold mbind, prog_bind. by rewrite Hrun, Hfin. }
  split; [by rewrite Hl2, Hl1, <-app_assoc|].
  split; [by apply Forall_app|].
  split; [|done].
  rewrite statements_app, Hs1, Hs2, fmap_app. by destruct (batch st1).
Qed.

(** A run that raises has closed the file and nothing else. *)
Lemma run_raise (rows : list row) (t : table) (e : exn) :
  (run env json_dumps rows t).2 = Raise e →
  ∃ l, log (run env json_dumps rows t).1
       = [Print MsgStart; FileOpen] ++ l ++ [FileClose] ∧
       Forall db_event l.
Proof.
  rewrite run_unfold. unfold mbind, prog_bind.
  destruct (loop_any rows (loop_entry t)) as (st1 & res & l1 & -> & Hl1 & Hfa1 & Hres).
  { cbn. unfold page_size. lia. }
  destruct res as [[]|e1].
  - destruct (final_flush_spec st1) as (st2 & l2 & -> & _); [|done].
    specialize (Hres eq_refl). lia.
  - cbn. intros _. exists l1. by rewrite Hl1, <-app_assoc.
Qed.

Lemma statements_run_log (st : state) (l : list event) (c : nat) :
  log st = [Print MsgStart; FileOpen] ++ l →
  statements (log (log_append st [FileClose; Print (MsgCompleted c);
                                  CursorClose; ConnClose]))
  = statements l.
Proof.
  intros Hl. unfold log_append. cbn [log]. rewrite Hl.
  rewrite !statements_app. cbn. by rewrite app_nil_r.
Qed.

(** C3. A file of N well-formed rows makes the run issue ceil(N/100)
    statements, whatever the server answers: every statement but the last
    carries 100 records, the last carries N mod 100 (100 when that is zero),
    and together they carry the records in file order.  After k rows the
    loop holds k mod 100 records and has issued k / 100 statements, so a
    flush happens exactly at the rows that bring the batch to 100; the rest
    is flushed when the rows are exhausted. *)
Theorem batching (rows : list row) (recs : list record) (t : table) :
  Forall2 (λ r rec, transform json_dumps r = Ok rec) rows recs →
  let N := length rows in
  let out := run env json_dumps rows t in
  let stmts := statements (log out.1) in
  out.2 = Ok tt ∧
  length stmts = (N + 99) / 100 ∧
  (∀ i s, stmts !! i = Some s → S i < length stmts → length s = 100) ∧
  (∀ s, last stmts = Some s →
        length s = if decide (N mod 100 = 0) then 100 else N mod 100) ∧
  concat stmts = statement_of recs ∧
  (∀ k, k ≤ N →
     ∃ st, for_each (loop_body env json_dumps) (take k rows) (loop_entry t)
             = (st, Ok tt) ∧
           length (batch st) = k mod 100 ∧
           length (statements (log st)) = k / 100).
Proof.
  intros Hrows N out stmts.
  assert (Hprefix : ∀ k, k ≤ N →
     ∃ st, for_each (loop_body env json_dumps) (take k rows) (loop_entry t)
             = (st, Ok tt) ∧
           length (batch st) = k mod 100 ∧
           length (statements (log st)) = k / 100).
  { intros k Hk.
    destruct (loop_spec (take k rows) (take k recs) (loop_entry t))
      as (st & l & pages & Hrun & Hl & _ & Hs & Hfa & Hcat & Hlen).
    { by apply Forall2_take. }
    { cbn. unfold page_size. lia. }
    exists st. split; [done|].
    apply (f_equal length) in Hcat.
    rewrite length_app, length_concat_pages in Hcat by done.
    cbn in Hcat. rewrite length_take in Hcat.
    apply Forall2_length in Hrows. fold N in Hrows.
    rewrite Hl, statements_app, Hs. cbn. rewrite length_fmap.
    unfold page_size in *. lia. }
  destruct (run_ok rows recs t Hrows)
    as (st & l & pages & b & Hout & Hl & _ & Hs & Hfa & Hcat & Hlen).
  assert (Hlog : stmts = statement_of <$>
                   (pages ++ match b with [] => [] | _ => [b] end)).
  { subst stmts out. rewrite Hout. cbn [fst].
    by rewrite (statements_run_log _ _ _ Hl). }
  assert (Hres : out.2 = Ok tt) by (subst out; by rewrite Hout).
  clearbody stmts out. subst stmts. clear Hout Hl Hs l st.
  assert (HN : N = 100 * length pages + length b).
  { apply Forall2_length in Hrows. subst N. rewrite Hrows, <-Hcat.
    rewrite length_app, length_concat_pages by done. done. }
  split; [done|]. unfold page_size in *.
  split.
  { rewrite length_fmap, length_app. destruct b; cbn in *; lia. }
  split.
  { intros i s Hi Hlt. rewrite length_fmap, length_app in Hlt.
    rewrite list_lookup_fmap in Hi.
    destruct ((pages ++ _) !! i) as [p|] eqn:Hp; [|done].
    injection Hi as <-. unfold statement_of. rewrite !length_fmap.
    assert (i < length pages) by (destruct b; cbn in Hlt; lia).
    rewrite lookup_app_l in Hp by done.
    by eapply (Forall_lookup_1 _ _ _ _ Hfa). }
  split.
  { intros s Hlast. rewrite fmap_last in Hlast.
    destruct b as [|rec b].
    - rewrite app_nil_r in Hlast. cbn in HN.
      destruct (last pages) as [p|] eqn:Hp; [|done].
      injection Hlast as <-. unfold statement_of. rewrite !length_fmap.
      apply last_Some_elem_of in Hp.
      rewrite Forall_forall in Hfa. rewrite (Hfa _ Hp).
      case_decide; lia.
    - rewrite last_snoc in Hlast. injection Hlast as <-.
      unfold statement_of. rewrite !length_fmap.
      cbn in *. case_decide; lia. }
  split; [|done].
  rewrite concat_statement_of, concat_app, <-Hcat. f_equal.
  destruct b; cbn; by rewrite ?app_nil_r.
Qed.

(** The statements of a run are the pages of its records: a batch of the
    script is a page of 100 records in file order. *)
Lemma statements_are_pages (rows : list row) (recs : list record) (t : table) :
  Forall2 (λ r rec, transform json_dumps r = Ok rec) rows recs →
  statements (log (run env json_dumps rows t).1) = statement_of <$> paginate recs.
Proof.
  intros Hrows.
  destruct (run_ok rows recs t Hrows)
    as (st & l & pages & b & Hout & Hl & _ & Hs & Hfa & Hcat & Hlen).
  rewrite Hout. cbn [fst]. rewrite (statements_run_log _ _ _ Hl), Hs.
  by rewrite <-Hcat, paginate_pages.
Qed.

(** On every return of the script the file, the cursor and the connection
    were closed, in this order, whatever the server answered. *)
Lemma resources_released_on_return (rows : list row) (t : table) :
  (run env json_dumps rows t).2 = Ok tt →
  ∃ l c, log (run env json_dumps rows t).1
         = l ++ [FileClose; Print (MsgCompleted c); CursorClose; ConnClose].
Proof.
  rewrite run_unfold.
  destruct ((for_each (loop_body env json_dumps) rows;; final_flush env) (loop_entry t))
    as [st [[]|e]]; [|done].
  intros _. by exists (log st), (count st).
Qed.

(** No run that raises closes the cursor or the connection. *)
Lemma raise_leaves_connection_open (rows : list row) (t : table) (e : exn) :
  (run env json_dumps rows t).2 = Raise e →
  FileClose ∈ log (run env json_dumps rows t).1 ∧
  (CursorClose ∉ log (run env json_dumps rows t).1) ∧
  (ConnClose ∉ log (run env json_dumps rows t).1).
Proof.
  intros (l & -> & Hfa)%run_raise. rewrite Forall_forall in Hfa.
  split; [set_solver|].
  split; intros Hin; repeat (apply elem_of_cons in Hin as [Hin|Hin]; [done|]);
    apply elem_of_app in Hin as [Hin|Hin];
    try (by apply Hfa in Hin);
    by apply list_elem_of_singleton in Hin.
Qed.

(** ** The table after a run *)

Lemma pg_row_record (rec : record) :
  pg_row (mogrify (args_of rec)) = Some (code rec, stored_of rec).
Proof. done. Qed.

Lemma pg_execute_batch (t : table) (b : list record) :
  b ≠ [] → NoDup (code <$> b) →
  pg_execute t (statement_of b) = Some (foldl upsert_record t b).
Proof.
  intros Hne Hnd. unfold pg_execute.
  destruct (statement_of b) as [|vs stmt] eqn:Hstmt.
  { by destruct b. }
  rewrite <-Hstmt. clear Hstmt vs stmt.
  assert (mapM pg_row (statement_of b) = Some ((λ rec, (code rec, stored_of rec)) <$> b))
    as ->.
  { apply mapM_Some. unfold statement_of. rewrite <-list_fmap_compose.
    apply Forall2_fmap, Forall_Forall2_diag, Forall_forall. by intros. }
  cbn. rewrite <-list_fmap_compose.
  rewrite decide_True by done.
  f_equal. by rewrite foldl_fmap.
Qed.

Lemma lookup_foldl_upsert (t : table) (recs : list record) (c : string) :
  foldl upsert_record t recs !! c =
  match last (filter (λ rec, code rec = c) recs) with
  | Some rec => Some (stored_of rec)
  | None => t !! c
  end.
Proof.
  induction recs as [|rec recs IH] using rev_ind; [done|].
  rewrite foldl_app, filter_app. cbn [foldl]. unfold upsert_record at 1.
  destruct (decide (code rec = c)) as [Hc|Hc].
  - rewrite filter_cons_True, filter_nil by done. rewrite last_snoc.
    by rewrite Hc, lookup_insert_eq.
  - rewrite filter_cons_False, filter_nil, app_nil_r by done.
    by rewrite lookup_insert_ne.
Qed.

End Run.


Lemma transform_rows_Ok json_dumps (rows : list row) (recs : list record) :
  transform_rows json_dumps rows = Ok recs →
  Forall2 (λ r rec, transform json_dumps r = Ok rec) rows recs.
Proof.
  revert recs. induction rows as [|r rows IH]; intros recs H; cbn in H.
  - injection H as <-. constructor.
  - apply rbind_Ok in H as (rec & Hrec & H).
    apply rbind_Ok in H as (recs' & Hrecs & H). injection H as <-.
    constructor; [done|by apply IH].
Qed.


(** ** Runs on concrete files *)

(** The two one-row scenarios of the specification. *)
Example row_with_empty_place :
  ∃ rec, transform plain_dumps (sample_row "ABC123" "" "visit" "FALSE") = Ok rec ∧
         code rec = "ABC123" ∧ active rec = true ∧ category rec = "all".
Proof. eexists. split; [vm_compute; reflexivity|]. done. Qed.

Example row_with_place :
  ∃ rec, transform plain_dumps (sample_row "XYZ9" "O" "visit" "TRUE") = Ok rec ∧
         code rec = "XYZ9-O" ∧ active rec = false ∧ category rec = "O".
Proof. eexists. split; [vm_compute; reflexivity|]. done. Qed.

Lemma code_rule_witness :
  ∃ rec, transform plain_dumps (sample_row "XYZ9" "O" "visit" "TRUE") = Ok rec ∧
         code rec = "XYZ9" +:+ "-" +:+ "O".
Proof.
  eexists. split; [vm_compute; reflexivity|].
  refine (proj2 (code_rule plain_dumps (sample_row "XYZ9" "O" "visit" "TRUE")
                   _ "XYZ9" "O" _ _ _) _ _);
    (vm_compute; reflexivity) || discriminate.
Defined.

Lemma active_iff_unit_require_witness :
  ∃ rec, transform plain_dumps (sample_row "ABC123" "" "visit" "FALSE") = Ok rec ∧
         (active rec = true ↔ "FALSE" = "FALSE").
Proof.
  eexists. split; [vm_compute; reflexivity|].
  apply (active_iff_unit_require plain_dumps
           (sample_row "ABC123" "" "visit" "FALSE") _ "FALSE");
    vm_compute; reflexivity.
Defined.

Lemma custom_fields_payload_witness :
  ∃ (rec : record) (d : py_dict),
    transform plain_dumps (sample_row "ABC123" "" "visit" "FALSE") = Ok rec ∧
    custom_fields rec = plain_dumps d ∧ ("place", "all") ∈ d.
Proof.
  destruct (custom_fields_payload plain_dumps
              (sample_row "ABC123" "" "visit" "FALSE") _ eq_refl)
    as (d & pl & Hd & _ & _ & Hpl & Hin).
  eexists _, d. split; [reflexivity|]. split; [exact Hd|].
  vm_compute in Hpl. injection Hpl as <-. exact Hin.
Defined.

Lemma category_nonempty_witness :
  ∃ rec, transform plain_dumps (sample_row "ABC123" "" "visit" "FALSE") = Ok rec ∧
         category rec ≠ "".
Proof.
  eexists. split; [vm_compute; reflexivity|].
  apply (category_nonempty plain_dumps (sample_row "ABC123" "" "visit" "FALSE")).
  vm_compute; reflexivity.
Defined.

Lemma empty_place_indistinguishable_witness :
  transform plain_dumps (<["place" := "all"]> (sample_row "ABC123" "" "visit" "FALSE"))
  = transform plain_dumps (sample_row "ABC123" "" "visit" "FALSE").
Proof.
  apply (empty_place_indistinguishable plain_dumps). vm_compute; reflexivity.
Defined.

Lemma batching_witness :
  length (statements (log (run no_faults plain_dumps (numbered_rows 150) ∅).1))
  = (150 + 99) / 100.
Proof.
  destruct (transform_rows plain_dumps (numbered_rows 150)) as [recs|e] eqn:E;
    [|vm_compute in E; discriminate E].
  exact (proj1 (proj2 (batching no_faults plain_dumps (numbered_rows 150) recs ∅
                         (transform_rows_Ok _ _ _ E)))).
Defined.

(** The scenario of 150 well-formed rows: two statements, of 100 and of 50
    rows; the count is 150 and the table holds 150 codes. *)
Example run_150_rows :
  let out := run no_faults plain_dumps (numbered_rows 150) ∅ in
  out.2 = Ok tt ∧
  length <$> statements (log out.1) = [100; 50] ∧
  count out.1 = 150 ∧
  size (committed out.1) = 150.
Proof. vm_compute. done. Qed.

(** C6. Last-write-wins fails inside a batch.  Two rows of one batch that
    derive the same code make the server reject the statement of the batch:
    the run returns, the batch is rolled back, and the table holds neither
    the later row nor the earlier one. *)
Lemma duplicate_codes_in_one_batch :
  ∃ recs rec,
    Forall2 (λ r rec, transform plain_dumps r = Ok rec) clashing_rows recs ∧
    last (filter (λ rec, code rec = "A") recs) = Some rec ∧
    (run no_faults plain_dumps clashing_rows ∅).2 = Ok tt ∧
    committed (run no_faults plain_dumps clashing_rows ∅).1 !! "A" = None ∧
    Rollback ∈ log (run no_faults plain_dumps clashing_rows ∅).1.
Proof.
  destruct (transform_rows plain_dumps clashing_rows) as [recs|e] eqn:E;
    [|vm_compute in E; discriminate E].
  pose proof (transform_rows_Ok _ _ _ E) as Hrows.
  vm_compute in E. injection E as <-.
  eexists _, _. split; [exact Hrows|]. split; [vm_compute; reflexivity|].
  split; [vm_compute; reflexivity|]. split; [vm_compute; reflexivity|].
  vm_compute. set_solver.
Qed.

(** The other rows of such a batch are lost with the two: of 100 rows that
    end with the two clashing ones, none is in the table. *)
Example duplicate_loses_the_batch :
  let out := run no_faults plain_dumps (numbered_rows 98 ++ clashing_rows) ∅ in
  out.2 = Ok tt ∧ count out.1 = 0 ∧ committed out.1 = ∅ ∧
  length (statements (log out.1)) = 1.
Proof. vm_compute. repeat split; reflexivity. Qed.

(** C4. On a server whose commit fails, the flush inside the loop has added
    the 100 records to [count] before the commit: the run reports 100 and
    the table is empty. *)
Theorem count_includes_uncommitted_batch :
  let out := run commit_faults plain_dumps (numbered_rows 100) ∅ in
  out.2 = Ok tt ∧
  count out.1 = 100 ∧
  committed out.1 = ∅ ∧
  Print (MsgCompleted 100) ∈ log out.1 ∧
  Rollback ∈ log out.1.
Proof.
  vm_compute. split; [done|]. split; [done|]. split; [done|].
  split; set_solver.
Qed.

(** The same at the flush of the remaining records. *)
Example count_includes_uncommitted_final_batch :
  let out := run commit_faults plain_dumps (numbered_rows 1) ∅ in
  out.2 = Ok tt ∧ count out.1 = 1 ∧ committed out.1 = ∅.
Proof. vm_compute. done. Qed.

(** C8. On a file whose header lacks a column the first row raises
    [KeyError]: the file is closed by the [with] block, and neither the
    cursor nor the connection is closed. *)
Theorem fatal_row_error_leaves_connection_open :
  let out := run no_faults plain_dumps short_header_rows ∅ in
  out.2 = Raise (KeyError "anchor_id") ∧
  log out.1 = [Print MsgStart; FileOpen; FileClose] ∧
  (CursorClose ∉ log out.1) ∧
  (ConnClose ∉ log out.1).
Proof.
  vm_compute. split; [done|]. split; [done|].
  split; intros H; repeat (apply elem_of_cons in H as [H|H]; [discriminate H|]);
    by apply elem_of_nil in H.
Qed.

(** * Further properties *)

(** ** Rows that lack a column, and columns the script does not read *)

Section TransformerErrors.

Variable json_dumps : py_dict → string.

(** X1. A row is transformed exactly when it has the thirteen columns the
    script subscripts. *)
Theorem transform_Ok_iff_columns (r : row) :
  (∃ rec, transform json_dumps r = Ok rec) ↔
  Forall (λ k, is_Some (r !! k)) columns.
Proof.
  split; [|apply transform_total].
  intros [rec (? & ? & ? & ? & ? & ? & ? & ? & ? & ? & ? & ? & ? & H)%transform_Ok].
  destruct_and!. unfold columns. repeat constructor; eauto.
Qed.

(** The exception of a row that lacks columns is the [KeyError] of the
    first missing one in the order of the subscripts, which is the order of
    the header. *)
Lemma transform_raises_first_missing (r : row) (i : nat) (k : string) :
  list_find (λ k, r !! k = None) columns = Some (i, k) →
  transform json_dumps r = Raise (KeyError k).
Proof.
  intros (Hk & Hnone & Hbefore)%list_find_Some.
  assert (Hsome : ∀ y, y ∈ take i columns → ∃ v, r !! y = Some v).
  { intros y (j & Hy & Hj)%elem_of_take.
    destruct (r !! y) eqn:E; [eauto|]. by eapply Hbefore in E. }
  unfold transform, custom_fields_dict, getitem.
  do 13 (destruct i as [|i];
    [ cbn in Hk; injection Hk as <-;
      repeat match goal with
      | |- context [match r !! ?c with _ => _ end] =>
          first [ destruct (Hsome c) as [? ->];
                  [unfold columns; cbn [take]; solve [repeat constructor]|]
                | rewrite Hnone ]
      end; reflexivity |]).
  by apply lookup_lt_Some in Hk; cbn in Hk; lia.
Qed.

(** X2. The transformer raises exactly on a row that lacks a column, and
    then the [KeyError] of the first missing column in the order of the
    header: no other exception comes out of it. *)
Theorem transform_raise_iff (r : row) (e : exn) :
  transform json_dumps r = Raise e ↔
  ∃ i k, list_find (λ k, r !! k = None) columns = Some (i, k) ∧ e = KeyError k.
Proof.
  split.
  - intros He.
    destruct (list_find (λ k, r !! k = None) columns) as [[i k]|] eqn:Hfind.
    + exists i, k. split; [done|].
      rewrite (transform_raises_first_missing r i k Hfind) in He. by injection He.
    + destruct (transform_total json_dumps r) as [rec Hrec]; [|congruence].
      apply Forall_forall. intros k Hk.
      eapply list_find_None, Forall_forall in Hfind; [|exact Hk].
      by destruct (r !! k).
  - intros (i & k & Hfind & ->). by eapply transform_raises_first_missing.
Qed.

(** X3. The script reads the thirteen columns and nothing else: rows that agree
    on them are transformed alike. *)
Theorem transform_reads_only_columns (r1 r2 : row) :
  (∀ k, k ∈ columns → r1 !! k = r2 !! k) →
  transform json_dumps r1 = transform json_dumps r2.
Proof.
  intros Heq. unfold transform, custom_fields_dict, getitem.
  repeat match goal with
  | |- context [r1 !! ?c] =>
      rewrite (Heq c) by (unfold columns; solve [repeat constructor])
  end.
  done.
Qed.

(** X4. The description is stored as read: the default of the empty string
    changes no string. *)
Theorem description_verbatim (r : row) (rec : record) (de : string) :
  transform json_dumps r = Ok rec →
  r !! "description" = Some de →
  description rec = de ∧ updated_by rec = "system_import".
Proof.
  intros (? & ? & ? & ? & ? & ? & ? & ? & ? & ? & ? & ? & ? & Hrec)%transform_Ok Hde.
  destruct_and!. simplify_eq. cbn. unfold str_or. split; [|done].
  by case_decide.
Qed.

Lemma append_cons (c : Ascii.ascii) (a y : string) :
  String c a +:+ y = String c (a +:+ y).
Proof. done. Qed.

Lemma hyphen_free_hyphen (a x : string) :
  hyphen_free (a +:+ "-" +:+ x) = false.
Proof.
  induction a as [|c a IH]; [done|].
  rewrite append_cons. cbn [hyphen_free]. rewrite IH. apply andb_false_r.
Qed.

Lemma hyphen_split (a b x y : string) :
  hyphen_free a = true → hyphen_free b = true →
  a +:+ "-" +:+ x = b +:+ "-" +:+ y → a = b ∧ x = y.
Proof.
  revert b. induction a as [|c a IH]; intros [|d b] Ha Hb Heq;
    rewrite ?append_cons in Heq; cbn in Ha, Hb.
  - by injection Heq.
  - injection Heq as <- _. done.
  - injection Heq as -> _. done.
  - injection Heq as -> Heq.
    apply andb_prop in Ha as [_ Ha]. apply andb_prop in Hb as [_ Hb].
    destruct (IH b Ha Hb Heq) as [-> ->]. done.
Qed.

(** X5. The composite code keeps rows apart, as the comment of line 33 intends,
    when no billing code holds a hyphen: two rows with the same code have
    the same billing code and the same category. *)
Theorem code_injective (r1 r2 : row) (rec1 rec2 : record) (bc1 bc2 : string) :
  transform json_dumps r1 = Ok rec1 →
  transform json_dumps r2 = Ok rec2 →
  r1 !! "billing_code" = Some bc1 →
  r2 !! "billing_code" = Some bc2 →
  hyphen_free bc1 = true →
  hyphen_free bc2 = true →
  code rec1 = code rec2 →
  bc1 = bc2 ∧ category rec1 = category rec2.
Proof.
  intros (? & pl1 & ? & ? & ? & ? & ? & ? & ? & ? & ? & ? & ? & Hrec1)%transform_Ok.
  intros (? & pl2 & ? & ? & ? & ? & ? & ? & ? & ? & ? & ? & ? & Hrec2)%transform_Ok.
  intros Hbc1 Hbc2 Hf1 Hf2. destruct_and!. simplify_eq. cbn.
  unfold make_code. repeat case_decide; intros Hcode.
  - split; congruence.
  - rewrite Hcode in Hf1. by rewrite hyphen_free_hyphen in Hf1.
  - rewrite <-Hcode in Hf2. by rewrite hyphen_free_hyphen in Hf2.
  - destruct (hyphen_split _ _ _ _ Hf1 Hf2 Hcode) as [-> Hpl]. done.
Qed.

End TransformerErrors.

(** With a hyphen in a billing code two rows of different places can
    derive the same code. *)
Example code_collision_with_hyphen :
  ∃ rec1 rec2,
    transform plain_dumps (sample_row "A-B" "" "first" "FALSE") = Ok rec1 ∧
    transform plain_dumps (sample_row "A" "B" "second" "FALSE") = Ok rec2 ∧
    code rec1 = code rec2 ∧ category rec1 ≠ category rec2.
Proof. eexists _, _. split; [vm_compute; reflexivity|]. split; [vm_compute; reflexivity|]. done. Qed.


Lemma transform_reads_only_columns_witness :
  transform plain_dumps (<["comment" := "x"]> (sample_row "XYZ9" "O" "visit" "TRUE"))
  = transform plain_dumps (sample_row "XYZ9" "O" "visit" "TRUE").
Proof.
  apply (transform_reads_only_columns plain_dumps).
  intros k Hk. apply lookup_insert_ne. intros <-.
  unfold columns in Hk.
  repeat (apply elem_of_cons in Hk as [Hk|Hk]; [discriminate Hk|]).
  by apply elem_of_nil in Hk.
Defined.

Lemma description_verbatim_witness :
  ∃ rec, transform plain_dumps (sample_row "XYZ9" "O" "visit" "TRUE") = Ok rec ∧
         description rec = "visit".
Proof.
  eexists. split; [vm_compute; reflexivity|].
  refine (proj1 (description_verbatim plain_dumps
                   (sample_row "XYZ9" "O" "visit" "TRUE") _ "visit" _ _));
    vm_compute; reflexivity.
Defined.

Lemma code_injective_witness :
  ∃ rec1 rec2,
    transform plain_dumps (sample_row "XYZ9" "O" "first" "TRUE") = Ok rec1 ∧
    transform plain_dumps (sample_row "XYZ9" "O" "second" "FALSE") = Ok rec2 ∧
    category rec1 = category rec2.
Proof.
  eexists _, _. split; [vm_compute; reflexivity|]. split; [vm_compute; reflexivity|].
  refine (proj2 (code_injective plain_dumps
                   (sample_row "XYZ9" "O" "first" "TRUE")
                   (sample_row "XYZ9" "O" "second" "FALSE")
                   _ _ "XYZ9" "XYZ9" _ _ _ _ _ _ _));
    vm_compute; reflexivity.
Defined.

(** ** The run as a fold over its batches *)

Lemma commits_app (l1 l2 : list event) :
  commits (l1 ++ l2) = commits l1 + commits l2.
Proof. unfold commits. by rewrite filter_app, length_app. Qed.

Lemma commits_singleton (e : event) :
  commits [e] = match e with Commit => 1 | _ => 0 end.
Proof. by destruct e. Qed.

Lemma progress_of_loop_entry (t : table) : progress_of (loop_entry t) = start t.
Proof. done. Qed.

Lemma concat_paginate_from {A} (page seq : list A) :
  concat (paginate_from page seq) = page ++ seq.
Proof.
  revert page. induction seq as [|x seq IH]; intros page; cbn.
  - rewrite app_nil_r. destruct page; cbn; by rewrite ?app_nil_r.
  - case_decide; cbn; rewrite IH; by rewrite <-?app_assoc.
Qed.

Lemma concat_paginate {A} (l : list A) : concat (paginate l) = l.
Proof. apply concat_paginate_from. Qed.

(** The server on the statement of a batch: the upsert of its records, or
    an error when a code occurs twice. *)
Lemma pg_execute_statement_of (t : table) (b : list record) :
  b ≠ [] →
  pg_execute t (statement_of b) =
  if bool_decide (NoDup (code <$> b)) then Some (foldl upsert_record t b) else None.
Proof.
  intros Hne. case_bool_decide as Hnd; [by apply pg_execute_batch|].
  unfold pg_execute.
  destruct (statement_of b) as [|vs stmt] eqn:Hstmt.
  { by destruct b. }
  rewrite <-Hstmt. clear Hstmt vs stmt.
  assert (mapM pg_row (statement_of b) = Some ((λ rec, (code rec, stored_of rec)) <$> b))
    as ->.
  { apply mapM_Some. unfold statement_of. rewrite <-list_fmap_compose.
    apply Forall2_fmap, Forall_Forall2_diag, Forall_forall. by intros. }
  cbn. rewrite <-list_fmap_compose.
  by rewrite decide_False.
Qed.

Lemma idempotent_upsert (t : table) (recs : list record) :
  foldl upsert_record (foldl upsert_record t recs) recs = foldl upsert_record t recs.
Proof.
  apply map_eq. intros c. rewrite !lookup_foldl_upsert.
  by destruct (last _).
Qed.

Lemma elem_of_concat_sublist {A} (l1 l2 : list (list A)) (x : A) :
  l1 `sublist_of` l2 → x ∈ concat l1 → x ∈ concat l2.
Proof.
  intros Hsub. induction Hsub as [|p l1 l2 Hsub IH|p l1 l2 Hsub IH]; cbn; [done| |];
    rewrite ?elem_of_app; tauto.
Qed.

Lemma replay_cons (env : faults) (pr : progress) (b : list record)
    (pages : list (list record)) :
  replay env pr (b :: pages) = replay env (flush_step env pr b) pages.
Proof. done. Qed.

(** The table after the flushes holds the upserts of some of the pages,
    each whole, in order; [count] is at least the records of these pages. *)
Lemma replay_applied (env : faults) (pr : progress) (pages : list (list record)) :
  ∃ applied,
    applied `sublist_of` pages ∧
    Forall (λ b, NoDup (code <$> b)) applied ∧
    p_table (replay env pr pages) = foldl upsert_record (p_table pr) (concat applied) ∧
    p_count pr + length (concat applied) ≤ p_count (replay env pr pages) ∧
    p_count (replay env pr pages) ≤ p_count pr + length (concat pages) ∧
    ((∀ j, commit_fault env j = false) →
     p_count (replay env pr pages) = p_count pr + length (concat applied)).
Proof.
  revert pr. induction pages as [|b pages IH]; intros pr.
  { exists []. cbn. repeat split; try done; try constructor; lia. }
  rewrite replay_cons. unfold flush_step.
  destruct (stmt_fault env _ || negb _) eqn:Hf;
    [|apply orb_false_elim in Hf as [_ Hb%negb_false_iff%bool_decide_eq_true];
      destruct (commit_fault env (p_commits pr)) eqn:Hcf];
    match goal with |- context [replay env ?p pages] =>
      destruct (IH p) as (applied & Hsub & Hnd & Ht & Hlo & Hhi & Hex) end;
    cbn in Ht, Hlo, Hhi, Hex.
  - exists applied. split; [by apply sublist_cons|]. split; [done|]. split; [done|].
    cbn [concat]. rewrite length_app. split; [done|]. split; [lia|done].
  - exists applied. split; [by apply sublist_cons|]. split; [done|]. split; [done|].
    cbn [concat]. rewrite length_app. split; [lia|]. split; [lia|].
    intros Hok. by rewrite Hok in Hcf.
  - exists (b :: applied). split; [by apply sublist_skip|].
    split; [by constructor|]. cbn [concat]. rewrite foldl_app, !length_app.
    split; [done|]. split; [lia|]. split; [lia|]. intros Hok. rewrite Hex by done. lia.
Qed.

(** On a server without faults the pages without a repeated code are
    applied, and they are the ones counted. *)
Lemma replay_no_faults (env : faults) (pr : progress) (pages : list (list record)) :
  (∀ i, stmt_fault env i = false) →
  (∀ j, commit_fault env j = false) →
  p_table (replay env pr pages) =
    foldl upsert_record (p_table pr)
      (concat (filter (λ b, NoDup (code <$> b)) pages)) ∧
  p_count (replay env pr pages) =
    p_count pr + length (concat (filter (λ b, NoDup (code <$> b)) pages)).
Proof.
  intros Hs Hc. revert pr. induction pages as [|b pages IH]; intros pr.
  { cbn. split; [done|lia]. }
  rewrite replay_cons. destruct (IH (flush_step env pr b)) as [-> ->].
  unfold flush_step. rewrite Hs, Hc. cbn [orb].
  case_bool_decide as Hb; cbn [negb p_table p_count].
  - rewrite filter_cons_True by done. cbn [concat].
    rewrite foldl_app, length_app. split; [done|lia].
  - by rewrite filter_cons_False by done.
Qed.

(** When every statement fails nothing is written and nothing is counted. *)
Lemma replay_statements_fail (env : faults) (pr : progress)
    (pages : list (list record)) :
  (∀ i, stmt_fault env i = true) →
  p_table (replay env pr pages) = p_table pr ∧
  p_count (replay env pr pages) = p_count pr.
Proof.
  intros Hs. revert pr. induction pages as [|b pages IH]; intros pr; [done|].
  rewrite replay_cons. destruct (IH (flush_step env pr b)) as [-> ->].
  unfold flush_step. by rewrite Hs.
Qed.


Lemma replay_statements (env : faults) (pr : progress)
    (pages : list (list record)) :
  p_statements (replay env pr pages) = p_statements pr + length pages.
Proof.
  revert pr. induction pages as [|b pages IH]; intros pr; [cbn; lia|].
  rewrite replay_cons, IH. unfold flush_step.
  destruct (_ || _); cbn; lia.
Qed.

Lemma lookup_stamp_batch (now : nat) (m : stamps) (b : list record) (c : string) :
  stamp_batch now m b !! c =
  if decide (c ∈ code <$> b) then Some now else m !! c.
Proof.
  unfold stamp_batch. induction b as [|rec b IH] using rev_ind.
  { cbn. by rewrite decide_False by apply not_elem_of_nil. }
  rewrite foldl_app, fmap_app. cbn [foldl fmap list_fmap].
  destruct (decide (code rec = c)) as [<-|Hne].
  - rewrite lookup_insert_eq, decide_True; [done|].
    apply elem_of_app. right. by apply list_elem_of_singleton.
  - rewrite lookup_insert_ne, IH by done.
    repeat case_decide; try done.
    + exfalso. match goal with H : ¬ _ |- _ => apply H end.
      apply elem_of_app. by left.
    + match goal with H : _ ∈ _ ++ _ |- _ =>
        apply elem_of_app in H as [?|?%list_elem_of_singleton]; done end.
Qed.

(** Whatever fails, a value of [updated_at] that the flushes committed is
    the time of the server at the statement of a page that carries the
    code. *)
Lemma replay_updated_at_origin (env : faults) (pr : progress)
    (pages : list (list record)) (c : string) (ts : nat) :
  p_updated_at (replay env pr pages) !! c = Some ts →
  p_updated_at pr !! c = Some ts ∨
  ∃ j page, pages !! j = Some page ∧ c ∈ code <$> page ∧
            ts = server_time env (p_statements pr + j).
Proof.
  revert pr. induction pages as [|b pages IH]; intros pr; [by left|].
  rewrite replay_cons. intros [Hc|(j & page & Hj & Hin & ->)]%IH.
  - unfold flush_step in Hc.
    destruct (_ || _); cbn in Hc; [by left|].
    destruct (commit_fault env _); [by left|].
    rewrite lookup_stamp_batch in Hc. case_decide as Hin; [|by left].
    injection Hc as <-. right. exists 0, b. by rewrite Nat.add_0_r.
  - right. exists (S j), page. split; [done|]. split; [done|].
    f_equal. unfold flush_step. destruct (_ || _); cbn; lia.
Qed.

(** Pages that do not carry a code leave its [updated_at] alone. *)
Lemma replay_updated_at_other (env : faults) (pr : progress)
    (pages : list (list record)) (c : string) :
  Forall (λ page, c ∉ code <$> page) pages →
  p_updated_at (replay env pr pages) !! c = p_updated_at pr !! c.
Proof.
  intros Hfa. revert pr. induction Hfa as [|b pages Hb _ IH]; intros pr; [done|].
  rewrite replay_cons, IH. unfold flush_step.
  destruct (_ || _); [done|]. cbn. destruct (commit_fault env _); [done|].
  by rewrite lookup_stamp_batch, decide_False.
Qed.

(** On a server without faults the last page that carries a code, when it
    carries no code twice, gives the code the time of its statement. *)
Lemma replay_updated_at_last (env : faults) (pr : progress)
    (pages : list (list record)) (j : nat) (page : list record) (c : string) :
  (∀ i, stmt_fault env i = false) →
  (∀ i, commit_fault env i = false) →
  pages !! j = Some page →
  NoDup (code <$> page) →
  c ∈ code <$> page →
  (∀ j' page', j < j' → pages !! j' = Some page' → c ∉ code <$> page') →
  p_updated_at (replay env pr pages) !! c = Some (server_time env (p_statements pr + j)).
Proof.
  intros Hs Hc. revert pr j. induction pages as [|b pages IH]; intros pr j Hj Hnd Hin Hlast;
    [done|].
  rewrite replay_cons. destruct j as [|j].
  - injection Hj as ->. rewrite replay_updated_at_other.
    + unfold flush_step. rewrite Hs, Hc, bool_decide_eq_true_2 by done. cbn.
      by rewrite lookup_stamp_batch, decide_True, Nat.add_0_r.
    + apply Forall_forall. intros page' [j' Hj']%list_elem_of_lookup.
      apply (Hlast (S j') page'); [lia|done].
  - rewrite (IH _ j); [| done | done | done |].
    + do 2 f_equal. unfold flush_step. destruct (_ || _); cbn; lia.
    + intros j' page' Hlt Hj'. apply (Hlast (S j') page'); [lia|done].
Qed.

Lemma code_inj_NoDup (b : list record) (rec1 rec2 : record) :
  NoDup (code <$> b) → rec1 ∈ b → rec2 ∈ b → code rec1 = code rec2 → rec1 = rec2.
Proof.
  induction b as [|rec b IH]; intros Hnd Hin1 Hin2 Hc; [by apply elem_of_nil in Hin1|].
  rewrite fmap_cons in Hnd. apply NoDup_cons in Hnd as [Hnot Hnd].
  apply elem_of_cons in Hin1 as [->|Hin1]; apply elem_of_cons in Hin2 as [->|Hin2].
  - done.
  - destruct Hnot. rewrite Hc. by apply list_elem_of_fmap_2.
  - destruct Hnot. rewrite <-Hc. by apply list_elem_of_fmap_2.
  - by apply IH.
Qed.

Lemma lookup_upsert_batch_other (t : table) (b : list record) (c : string) :
  (c ∉ code <$> b) → foldl upsert_record t b !! c = t !! c.
Proof.
  intros Hnot. rewrite lookup_foldl_upsert.
  destruct (last _) as [rec|] eqn:Hlast; [|done].
  apply last_Some_elem_of, list_elem_of_filter in Hlast as [<- Hin].
  destruct Hnot. by apply list_elem_of_fmap_2.
Qed.

Lemma lookup_upsert_batch_in (t : table) (b : list record) (rec : record) :
  NoDup (code <$> b) → rec ∈ b →
  foldl upsert_record t b !! code rec = Some (stored_of rec).
Proof.
  intros Hnd Hin. rewrite lookup_foldl_upsert.
  destruct (last _) as [rec'|] eqn:Hlast.
  - apply last_Some_elem_of, list_elem_of_filter in Hlast as [Hc Hin'].
    by rewrite (code_inj_NoDup b rec' rec Hnd Hin' Hin Hc).
  - apply last_None in Hlast.
    assert (rec ∈ filter (λ r, code r = code rec) b) as Hf
      by (by apply list_elem_of_filter).
    rewrite Hlast in Hf. by apply elem_of_nil in Hf.
Qed.

(** Pages that do not carry a code leave its row alone. *)
Lemma replay_table_other (env : faults) (pr : progress)
    (pages : list (list record)) (c : string) :
  Forall (λ page, c ∉ code <$> page) pages →
  p_table (replay env pr pages) !! c = p_table pr !! c.
Proof.
  intros Hfa. revert pr. induction Hfa as [|b pages Hb _ IH]; intros pr; [done|].
  rewrite replay_cons, IH. unfold flush_step.
  destruct (_ || _); [done|]. cbn. destruct (commit_fault env _); [done|].
  by apply lookup_upsert_batch_other.
Qed.

(** On a server without faults the table holds the values of a record of
    the last page that carries its code, when that page carries no code
    twice. *)
Lemma replay_table_last (env : faults) (pr : progress)
    (pages : list (list record)) (j : nat) (page : list record) (rec : record) :
  (∀ i, stmt_fault env i = false) →
  (∀ i, commit_fault env i = false) →
  pages !! j = Some page →
  NoDup (code <$> page) →
  rec ∈ page →
  (∀ j' page', j < j' → pages !! j' = Some page' → code rec ∉ code <$> page') →
  p_table (replay env pr pages) !! code rec = Some (stored_of rec).
Proof.
  intros Hs Hc. revert pr j. induction pages as [|b pages IH]; intros pr j Hj Hnd Hin Hlast;
    [done|].
  rewrite replay_cons. destruct j as [|j].
  - injection Hj as ->. rewrite replay_table_other.
    + unfold flush_step. rewrite Hs, Hc, bool_decide_eq_true_2 by done. cbn.
      by apply lookup_upsert_batch_in.
    + apply Forall_forall. intros page' [j' Hj']%list_elem_of_lookup.
      apply (Hlast (S j') page'); [lia|done].
  - apply (IH _ j); [done|done|done|].
    intros j' page' Hlt Hj'. apply (Hlast (S j') page'); [lia|done].
Qed.

(** On a server without faults the rows that carry a value of [updated_at]
    are those of the pages written: which they are does not depend on the
    clock. *)
Lemma replay_updated_at_dom (env : faults) (pr : progress)
    (pages : list (list record)) (c : string) :
  (∀ i, stmt_fault env i = false) →
  (∀ i, commit_fault env i = false) →
  is_Some (p_updated_at (replay env pr pages) !! c) ↔
  is_Some (p_updated_at pr !! c) ∨
  c ∈ code <$> concat (filter (λ b, NoDup (code <$> b)) pages).
Proof.
  intros Hs Hc. revert pr. induction pages as [|b pages IH]; intros pr.
  { cbn. rewrite elem_of_nil. tauto. }
  rewrite replay_cons, IH. unfold flush_step. rewrite Hs, Hc. cbn [orb].
  case_bool_decide as Hb; cbn [negb p_updated_at].
  - rewrite filter_cons_True by done. cbn [concat].
    rewrite fmap_app, elem_of_app, lookup_stamp_batch.
    case_decide; [|tauto]. split; [tauto|]. intros _. left. by eexists.
  - rewrite filter_cons_False by done. tauto.
Qed.

Section Replay.
Variable env : faults.
Variable json_dumps : py_dict → string.

Lemma for_each_app {A} (body : A → prog unit) (l1 l2 : list A) (st : state) :
  for_each body (l1 ++ l2) st =
  match for_each body l1 st with
  | (st1, Ok tt) => for_each body l2 st1
  | (st1, Raise e) => (st1, Raise e)
  end.
Proof.
  revert st. induction l1 as [|x l1 IH]; intros st; [done|].
  cbn [app for_each]. unfold mbind, prog_bind.
  destruct (body x st) as [st1 [[]|e]]; [apply IH|done].
Qed.

Ltac progress_eq :=
  unfold progress_of; cbn [log committed committed_at count];
  rewrite ?statements_app, ?commits_app, ?commits_singleton, ?length_app; cbn;
  f_equal; lia.

Lemma flush_in_loop_progress (st : state) :
  0 < length (batch st) ≤ page_size →
  idle st →
  ∃ st', flush_in_loop env st = (st', Ok tt) ∧ batch st' = batch st ∧
         idle st' ∧
         progress_of st' = flush_step env (progress_of st) (batch st).
Proof.
  intros Hlen [Heq Heq']. unfold flush_in_loop, try_except.
  unfold mbind, prog_bind, get_batch.
  rewrite execute_values_single by (by rewrite length_fmap).
  unfold cur_execute. fold (statement_of (batch st)).
  cbv zeta. rewrite pg_updated_at_statement_of.
  unfold flush_step. cbn [progress_of p_statements p_commits p_table p_updated_at p_count].
  rewrite pg_execute_statement_of by (destruct (batch st); [cbn in Hlen; lia|done]).
  destruct (stmt_fault env _) eqn:Hsf.
  { cbn. eexists; split; [done|]. cbn. split; [done|]. split; [done|]. progress_eq. }
  destruct (bool_decide _) eqn:Hnd.
  2:{ cbn. eexists; split; [done|]. cbn. split; [done|]. split; [done|]. progress_eq. }
  cbn. unfold conn_commit. cbn [log].
  rewrite !commits_app, !commits_singleton, !Nat.add_0_r.
  destruct (commit_fault env _) eqn:Hcf; cbn.
  - eexists; split; [done|]. cbn. split; [done|]. split; [done|]. progress_eq.
  - eexists; split; [done|]. cbn. split; [done|]. split; [done|].
    rewrite <-Heq, <-Heq'. progress_eq.
Qed.

Lemma final_flush_progress (st : state) :
  length (batch st) ≤ page_size →
  idle st →
  ∃ st', final_flush env st = (st', Ok tt) ∧
         batch st' = batch st ∧
         idle st' ∧
         progress_of st' =
           replay env (progress_of st) match batch st with [] => [] | b => [b] end.
Proof.
  intros Hlen [Heq Heq']. unfold final_flush, try_except.
  unfold mbind, prog_bind, get_batch.
  destruct (batch st) as [|rec b] eqn:Hb.
  { by exists st. }
  rewrite execute_values_single by (rewrite length_fmap; cbn in *; lia).
  unfold cur_execute. rewrite Hb. fold (statement_of (rec :: b)).
  cbv zeta. rewrite pg_updated_at_statement_of.
  unfold replay, flush_step.
  cbn [foldl progress_of p_statements p_commits p_table p_updated_at p_count].
  rewrite pg_execute_statement_of by done.
  destruct (stmt_fault env _) eqn:Hsf.
  { cbn. eexists; split; [done|]. cbn. split; [done|]. split; [done|]. progress_eq. }
  destruct (bool_decide _) eqn:Hnd.
  2:{ cbn. eexists; split; [done|]. cbn. split; [done|]. split; [done|]. progress_eq. }
  cbn. unfold conn_commit. cbn [log].
  rewrite !commits_app, !commits_singleton, !Nat.add_0_r.
  destruct (commit_fault env _) eqn:Hcf; cbn.
  - eexists; split; [done|]. cbn. split; [done|]. split; [done|]. progress_eq.
  - eexists; split; [done|]. cbn. split; [done|]. split; [done|].
    rewrite <-Heq, <-Heq'. progress_eq.
Qed.

Lemma loop_body_progress (r : row) (rec : record) (st : state) :
  transform json_dumps r = Ok rec →
  length (batch st) < page_size →
  idle st →
  ∃ st', loop_body env json_dumps r st = (st', Ok tt) ∧
    idle st' ∧
    if decide (S (length (batch st)) = page_size)
    then batch st' = [] ∧
         progress_of st' = flush_step env (progress_of st) (batch st ++ [rec])
    else batch st' = batch st ++ [rec] ∧ progress_of st' = progress_of st.
Proof.
  intros Hrec Hlen Heq. unfold loop_body, lift.
  unfold mbind at 1. unfold prog_bind at 1. rewrite Hrec.
  unfold mbind, prog_bind, get_batch, set_batch. cbn [batch].
  rewrite length_app. cbn [length]. unfold page_size in *.
  case_decide as Hfull; case_decide as Hfull'; try lia.
  - match goal with |- context [flush_in_loop env ?s] =>
      destruct (flush_in_loop_progress s) as (st' & -> & Hb & Hw & Hp) end.
    { cbn. rewrite length_app. cbn. unfold page_size. lia. }
    { done. }
    eexists; split; [done|]. cbn in *. done.
  - eexists; split; [done|]. done.
Qed.

(** The loop on well-formed rows: it has flushed the full pages of the
    records it was given, each as [flush_step] says, and holds the rest. *)
Lemma loop_progress (rows : list row) (recs : list record) (st : state) :
  Forall2 (λ r rec, transform json_dumps r = Ok rec) rows recs →
  length (batch st) < page_size →
  idle st →
  ∃ st' pages,
    for_each (loop_body env json_dumps) rows st = (st', Ok tt) ∧
    idle st' ∧
    Forall (λ p, length p = page_size) pages ∧
    concat pages ++ batch st' = batch st ++ recs ∧
    length (batch st') < page_size ∧
    progress_of st' = replay env (progress_of st) pages.
Proof.
  intros Hrows. revert st.
  induction Hrows as [|r rec rows recs Hrec _ IH]; intros st Hlen Heq.
  - exists st, []. cbn. by rewrite !app_nil_r.
  - cbn [for_each]. unfold mbind, prog_bind.
    destruct (loop_body_progress r rec st Hrec Hlen Heq) as (st1 & -> & Heq1 & Hstep).
    case_decide as Hfull.
    + destruct Hstep as [Hb Hp].
      destruct (IH st1) as (st' & pages & -> & Heq' & Hfa & Hcat & Hlen' & Hp').
      { rewrite Hb. cbn. unfold page_size. lia. } { done. }
      exists st', ((batch st ++ [rec]) :: pages).
      split; [done|]. split; [done|].
      split; [constructor; [rewrite length_app; cbn; lia|done]|].
      split; [cbn; rewrite Hb in Hcat; cbn in Hcat; by rewrite <-!app_assoc, Hcat|].
      split; [done|]. cbn. by rewrite Hp', Hp.
    + destruct Hstep as [Hb Hp].
      destruct (IH st1) as (st' & pages & -> & Heq' & Hfa & Hcat & Hlen' & Hp').
      { rewrite Hb, length_app. cbn. lia. } { done. }
      exists st', pages. split; [done|]. split; [done|]. split; [done|].
      split; [by rewrite Hcat, Hb, <-app_assoc|]. split; [done|].
      by rewrite Hp', Hp.
Qed.

(** A run on well-formed rows returns, and what it did to the table and to
    [count] is the fold of [flush_step] over the pages of the records. *)
Lemma run_progress (rows : list row) (recs : list record) (t : table) :
  Forall2 (λ r rec, transform json_dumps r = Ok rec) rows recs →
  ∃ st,
    run env json_dumps rows t =
      (log_append st [FileClose; Print (MsgCompleted (count st));
                      CursorClose; ConnClose], Ok tt) ∧
    idle st ∧
    progress_of st = replay env (start t) (paginate recs).
Proof.
  intros Hrows.
  destruct (loop_progress rows recs (loop_entry t))
    as (st1 & pages & Hrun & Heq1 & Hfa & Hcat & Hlen & Hp1);
    [done|cbn; unfold page_size; lia|done|].
  destruct (final_flush_progress st1) as (st2 & Hfin & Hb2 & Heq2 & Hp2); [lia|done|].
  exists st2. split.
  { rewrite run_unfold. unfold mbind, prog_bind. by rewrite Hrun, Hfin. }
  split; [done|].
  cbn in Hcat. rewrite <-Hcat, paginate_pages by done.
  unfold replay in *. rewrite foldl_app, Hp2, Hp1, progress_of_loop_entry.
  by destruct (batch st1).
Qed.

(** A run on a file that the reader gives up on after the well-formed rows
    [rows]: it raises the reader's exception, having flushed the full pages
    of the records; the rest of them is in [batch]. *)
Lemma run_stopped (rows : list row) (recs : list record) (e : exn) (t : table) :
  Forall2 (λ r rec, transform json_dumps r = Ok rec) rows recs →
  ∃ st pages,
    run_source env json_dumps (File rows (Some e)) t
      = (log_append st [FileClose], Raise e) ∧
    idle st ∧
    Forall (λ p, length p = page_size) pages ∧
    concat pages ++ batch st = recs ∧
    length (batch st) < page_size ∧
    progress_of st = replay env (start t) pages.
Proof.
  intros Hrows.
  destruct (loop_progress rows recs (loop_entry t))
    as (st1 & pages & Hrun & Heq1 & Hfa & Hcat & Hlen & Hp1);
    [done|cbn; unfold page_size; lia|done|].
  exists st1, pages. rewrite <-progress_of_loop_entry. split; [|done].
  rewrite run_source_unfold. unfold mbind, prog_bind. by rewrite Hrun.
Qed.

(** What a run on well-formed rows leaves behind, whatever the server
    answers. *)
Lemma run_applied (rows : list row) (recs : list record) (t : table) :
  Forall2 (λ r rec, transform json_dumps r = Ok rec) rows recs →
  ∃ st applied,
    run env json_dumps rows t =
      (log_append st [FileClose; Print (MsgCompleted (count st));
                      CursorClose; ConnClose], Ok tt) ∧
    working st = committed st ∧
    applied `sublist_of` paginate recs ∧
    Forall (λ b, NoDup (code <$> b)) applied ∧
    committed st = foldl upsert_record t (concat applied) ∧
    length (concat applied) ≤ count st ≤ length rows ∧
    ((∀ j, commit_fault env j = false) → count st = length (concat applied)).
Proof.
  intros Hrows.
  destruct (run_progress rows recs t Hrows) as (st & Hrun & [Heq _] & Hp).
  destruct (replay_applied env (start t) (paginate recs))
    as (applied & Hsub & Hnd & Ht & Hlo & Hhi & Hex).
  rewrite <-Hp in Ht, Hlo, Hhi, Hex. cbn in Ht, Hlo, Hhi, Hex.
  rewrite concat_paginate, <-(Forall2_length _ _ _ Hrows) in Hhi.
  exists st, applied. done.
Qed.

(** The log of a run on any file: the banner; when the file opens, the
    opening, calls of the database and console lines, and the closing of
    the file; the completion line and the closing of the cursor and of the
    connection when the run returns, and only then. *)
Lemma run_source_log (src : source) (t : table) :
  let out := run_source env json_dumps src t in
  (src = NoFile ∧ out.2 = Raise OSError ∧ log out.1 = [Print MsgStart]) ∨
  ∃ l, Forall db_event l ∧
    ((∃ c, out.2 = Ok tt ∧
           log out.1 = [Print MsgStart; FileOpen] ++ l ++
                       [FileClose; Print (MsgCompleted c); CursorClose; ConnClose]) ∨
     (∃ e, out.2 = Raise e ∧
           log out.1 = [Print MsgStart; FileOpen] ++ l ++ [FileClose])).
Proof.
  destruct src as [|rows stop]; [by left|]. right.
  cbv zeta. rewrite run_source_unfold. unfold mbind, prog_bind.
  destruct (loop_any env json_dumps rows (loop_entry t))
    as (st1 & res & l1 & -> & Hl1 & Hfa1 & Hres).
  { cbn. unfold page_size. lia. }
  destruct res as [[]|e1].
  - destruct stop as [e|].
    + exists l1. split; [done|]. right. exists e. cbn. by rewrite Hl1, <-app_assoc.
    + destruct (final_flush_spec env st1) as (st2 & l2 & -> & Hl2 & _ & Hfa2).
      { specialize (Hres eq_refl). lia. }
      exists (l1 ++ l2). split; [by apply Forall_app|]. left. exists (count st2).
      cbn. by rewrite Hl2, Hl1, <-!app_assoc.
  - exists l1. split; [done|]. right. exists e1. cbn. by rewrite Hl1, <-app_assoc.
Qed.

End Replay.

(** ** What a run leaves in the table and in [count] *)

Section Outcomes.
Variable env : faults.
Variable json_dumps : py_dict → string.


(** X7. The file is closed on every exit; the cursor and the connection are
    closed exactly on the runs that return. *)
Theorem connection_closed_iff_returns (rows : list row) (t : table) :
  let out := run env json_dumps rows t in
  FileClose ∈ log out.1 ∧
  (CursorClose ∈ log out.1 ↔ out.2 = Ok tt) ∧
  (ConnClose ∈ log out.1 ↔ out.2 = Ok tt).
Proof.
  intros out. destruct (out.2) as [[]|e] eqn:Hres.
  - destruct (resources_released_on_return env json_dumps rows t Hres) as (l & c & Hl).
    fold out in Hl. rewrite Hl. set_solver.
  - destruct (raise_leaves_connection_open env json_dumps rows t e Hres)
      as (Hf & Hc & Hn).
    fold out in Hf, Hc, Hn. split; [done|]. split; split; done.
Qed.

(** X8. A reader that gives up in the middle of the file (a line the csv
    module refuses, bytes that are not UTF-8) after k well-formed rows: the
    run raises the reader's exception and leaves the table and [count] as
    the run on the rows of the completed batches alone.  The rows read since
    the last flush are held in [batch] and never sent, no transaction is
    left open, the file is closed, the cursor and the connection are not. *)
Theorem reader_error_partial_import (rows : list row) (recs : list record)
    (e : exn) (t : table) :
  Forall2 (λ r rec, transform json_dumps r = Ok rec) rows recs →
  let out := run_source env json_dumps (File rows (Some e)) t in
  let flushed := 100 * (length rows / 100) in
  let ref := run env json_dumps (take flushed rows) t in
  out.2 = Raise e ∧
  ref.2 = Ok tt ∧
  committed out.1 = committed ref.1 ∧
  committed_at out.1 = committed_at ref.1 ∧
  working out.1 = committed out.1 ∧
  count out.1 = count ref.1 ∧
  batch out.1 = drop flushed recs ∧
  FileClose ∈ log out.1 ∧
  (CursorClose ∉ log out.1) ∧
  (ConnClose ∉ log out.1).
Proof.
  intros Hrows out flushed ref.
  destruct (run_stopped env json_dumps rows recs e t Hrows)
    as (st & pages & Hout & [Heq _] & Hfa & Hcat & Hlen & Hp).
  assert (Hflushed : flushed = length (concat pages)).
  { subst flushed. rewrite (Forall2_length _ _ _ Hrows), <-Hcat, length_app.
    rewrite length_concat_pages by done. unfold page_size in *. lia. }
  assert (Htake : take flushed recs = concat pages).
  { by rewrite <-Hcat, take_app_length'. }
  destruct (run_progress env json_dumps (take flushed rows) (take flushed recs) t)
    as (st' & Href & Heq' & Hp'); [by apply Forall2_take|].
  rewrite Htake in Hp'.
  rewrite <-(app_nil_r (concat pages)), paginate_pages, app_nil_r in Hp';
    [|done|unfold page_size; cbn; lia].
  rewrite <-Hp in Hp'. injection Hp' as _ _ Ht Hua Hc.
  destruct (run_source_log env json_dumps (File rows (Some e)) t)
    as [(? & _)|(l & Hl & [(c & Hres & _)|(e' & _ & Hlog)])]; [done| |].
  { fold out in Hres. subst out. by rewrite Hout in Hres. }
  fold out in Hlog. rewrite Forall_forall in Hl.
  assert (Hclosed : ∀ ev, ev = CursorClose ∨ ev = ConnClose → ev ∉ log out.1).
  { intros ev Hev Hin. rewrite Hlog in Hin.
    repeat (apply elem_of_cons in Hin as [->|Hin];
            [by destruct Hev|]).
    apply elem_of_app in Hin as [Hin|Hin].
    - apply Hl in Hin. by destruct Hev as [-> | ->].
    - apply list_elem_of_singleton in Hin as ->. by destruct Hev. }
  split; [subst out; by rewrite Hout|].
  split; [subst ref; by rewrite Href|].
  split; [subst out ref; by rewrite Hout, Href|].
  split; [subst out ref; by rewrite Hout, Href|].
  split; [subst out; by rewrite Hout|].
  split; [subst out ref; by rewrite Hout, Href|].
  split; [subst out; rewrite Hout; cbn; by rewrite <-Hcat, drop_app_length'|].
  split; [rewrite Hlog; set_solver|].
  split; apply Hclosed; auto.
Qed.

(** X9. A batch is written whole or not at all, whatever fails: the table after
    a run on well-formed rows is the upsert, in file order, of some of the
    pages of 100 records, none of them with a repeated code, and no
    transaction is left open. *)
Theorem batches_all_or_nothing (rows : list row) (recs : list record) (t : table) :
  Forall2 (λ r rec, transform json_dumps r = Ok rec) rows recs →
  let out := run env json_dumps rows t in
  ∃ applied,
    applied `sublist_of` paginate recs ∧
    Forall (λ b, NoDup (code <$> b)) applied ∧
    committed out.1 = foldl upsert_record t (concat applied) ∧
    working out.1 = committed out.1.
Proof.
  intros Hrows out.
  destruct (run_applied env json_dumps rows recs t Hrows)
    as (st & applied & Hrun & Heq & Hsub & Hnd & Ht & _).
  exists applied. subst out. rewrite Hrun. done.
Qed.

(** X10. The reported count never falls short of what was written: it is at
    least the number of records of the committed batches and at most the
    number of rows, and it is exact when no commit fails. *)
Theorem count_never_under_reports (rows : list row) (recs : list record)
    (t : table) :
  Forall2 (λ r rec, transform json_dumps r = Ok rec) rows recs →
  let out := run env json_dumps rows t in
  ∃ applied,
    applied `sublist_of` paginate recs ∧
    committed out.1 = foldl upsert_record t (concat applied) ∧
    length (concat applied) ≤ count out.1 ≤ length rows ∧
    Print (MsgCompleted (count out.1)) ∈ log out.1 ∧
    ((∀ j, commit_fault env j = false) → count out.1 = length (concat applied)).
Proof.
  intros Hrows out.
  destruct (run_applied env json_dumps rows recs t Hrows)
    as (st & applied & Hrun & Heq & Hsub & Hnd & Ht & Hc & Hex).
  exists applied. subst out. rewrite Hrun. cbn [fst log_append committed count log].
  split; [done|]. split; [done|]. split; [done|]. split; [|done].
  apply elem_of_app. right. apply elem_of_cons. right. apply elem_of_cons. by left.
Qed.

(** X11. The import touches no other row of the table and deletes none: after a
    run, whatever fails, a code that no row of the file derives holds what
    it held, a code of the table is still there, and every entry is an old
    one or the values of a record of the file. *)
Theorem table_entries_after_run (rows : list row) (recs : list record)
    (t : table) (c : string) :
  Forall2 (λ r rec, transform json_dumps r = Ok rec) rows recs →
  let out := run env json_dumps rows t in
  ((c ∉ code <$> recs) → committed out.1 !! c = t !! c) ∧
  (is_Some (t !! c) → is_Some (committed out.1 !! c)) ∧
  (∀ s, committed out.1 !! c = Some s →
        t !! c = Some s ∨ ∃ rec, rec ∈ recs ∧ code rec = c ∧ s = stored_of rec).
Proof.
  intros Hrows out.
  destruct (run_applied env json_dumps rows recs t Hrows)
    as (st & applied & Hrun & Heq & Hsub & Hnd & Ht & _).
  subst out. rewrite Hrun. cbn [fst log_append committed].
  rewrite Ht, lookup_foldl_upsert.
  destruct (last _) as [rec|] eqn:Hlast.
  - apply last_Some_elem_of, list_elem_of_filter in Hlast as [Hc Hin].
    apply (elem_of_concat_sublist _ _ _ Hsub) in Hin.
    rewrite concat_paginate in Hin.
    split; [|split].
    + intros Hnot. destruct Hnot. subst c. by apply list_elem_of_fmap_2.
    + by eauto.
    + intros s [= <-]. right. by exists rec.
  - split; [done|]. split; [done|]. intros s Hs. by left.
Qed.

(** X12. On a server without faults every batch that the driver can adapt
    and that has no repeated code is written and counted, and every batch
    with a repeated code is dropped whole. *)
Theorem import_without_faults (rows : list row) (recs : list record) (t : table) :
  (∀ i, stmt_fault env i = false) →
  (∀ j, commit_fault env j = false) →
  Forall2 (λ r rec, transform json_dumps r = Ok rec) rows recs →
  Forall sendable recs →
  let out := run env json_dumps rows t in
  let kept := filter (λ b, NoDup (code <$> b)) (paginate recs) in
  out.2 = Ok tt ∧
  committed out.1 = foldl upsert_record t (concat kept) ∧
  count out.1 = length (concat kept).
Proof.
  intros Hs Hc Hrows _ out kept.
  destruct (run_progress env json_dumps rows recs t Hrows) as (st & Hrun & Heq & Hp).
  destruct (replay_no_faults env (start t) (paginate recs) Hs Hc) as [Ht Hn].
  rewrite <-Hp in Ht, Hn. cbn in Ht, Hn.
  subst out. rewrite Hrun. done.
Qed.

(** X13. Importing the same file again changes nothing but [updated_at]:
    on servers without faults the second run returns, leaves every other
    column of the table as the first left it, reports the same count, and
    writes the same rows; each of them gets a time of the second server's
    clock as its [updated_at]. *)
Theorem reimport_changes_only_updated_at (env2 : faults) (rows : list row)
    (recs : list record) (t : table) :
  (∀ i, stmt_fault env i = false) →
  (∀ j, commit_fault env j = false) →
  (∀ i, stmt_fault env2 i = false) →
  (∀ j, commit_fault env2 j = false) →
  Forall2 (λ r rec, transform json_dumps r = Ok rec) rows recs →
  Forall sendable recs →
  let once := run env json_dumps rows t in
  let twice := run env2 json_dumps rows (committed once.1) in
  twice.2 = Ok tt ∧
  committed twice.1 = committed once.1 ∧
  count twice.1 = count once.1 ∧
  (∀ c, is_Some (committed_at twice.1 !! c) ↔ is_Some (committed_at once.1 !! c)) ∧
  (∀ c ts, committed_at twice.1 !! c = Some ts →
           ∃ j, j < length (statements (log twice.1)) ∧ ts = server_time env2 j).
Proof.
  intros Hs Hc Hs2 Hc2 Hrows _ once twice.
  destruct (run_progress env json_dumps rows recs t Hrows) as (st1 & Hrun1 & _ & Hp1).
  destruct (replay_no_faults env (start t) (paginate recs) Hs Hc) as [Ht1 Hn1].
  pose proof (λ c, replay_updated_at_dom env (start t) (paginate recs) c Hs Hc) as Hd1.
  rewrite <-Hp1 in Ht1, Hn1. cbn in Ht1, Hn1.
  assert (Honce : once.1 = log_append st1 [FileClose; Print (MsgCompleted (count st1));
                                           CursorClose; ConnClose])
    by (subst once; by rewrite Hrun1).
  subst twice. rewrite Honce. cbn [log_append committed committed_at count].
  clearbody once. clear Honce once.
  destruct (run_progress env2 json_dumps rows recs (committed st1) Hrows)
    as (st2 & Hrun2 & _ & Hp2).
  destruct (replay_no_faults env2 (start (committed st1)) (paginate recs) Hs2 Hc2)
    as [Ht2 Hn2].
  pose proof (λ c, replay_updated_at_dom env2 (start (committed st1)) (paginate recs) c
                     Hs2 Hc2) as Hd2.
  pose proof (λ c ts, replay_updated_at_origin env2 (start (committed st1))
                        (paginate recs) c ts) as Ho2.
  pose proof (replay_statements env2 (start (committed st1)) (paginate recs)) as Hn.
  rewrite <-Hp2 in Ht2, Hn2, Hd2, Ho2, Hn. rewrite <-Hp1 in Hd1.
  cbn in Ht2, Hn2, Hd1, Hd2, Ho2, Hn.
  rewrite Hrun2. cbn [fst snd log_append committed committed_at count log].
  split; [done|]. split; [by rewrite Ht2, Ht1, idempotent_upsert|].
  split; [lia|]. split.
  - intros c. rewrite Hd1, Hd2. done.
  - intros c ts [Hc'|(j & page & Hj & _ & ->)]%Ho2; [by rewrite lookup_empty in Hc'|].
    exists j. split; [|done]. rewrite !statements_app. cbn. rewrite app_nil_r, Hn.
    by apply lookup_lt_Some in Hj.
Qed.

(** X14. When the server rejects every statement the run still returns: the
    table is untouched and the completion line reports 0 records. *)
Theorem nothing_imported_when_statements_fail (rows : list row)
    (recs : list record) (t : table) :
  (∀ i, stmt_fault env i = true) →
  Forall2 (λ r rec, transform json_dumps r = Ok rec) rows recs →
  let out := run env json_dumps rows t in
  out.2 = Ok tt ∧
  committed out.1 = t ∧
  count out.1 = 0 ∧
  Print (MsgCompleted 0) ∈ log out.1.
Proof.
  intros Hs Hrows out.
  destruct (run_progress env json_dumps rows recs t Hrows) as (st & Hrun & Heq & Hp).
  destruct (replay_statements_fail env (start t) (paginate recs) Hs) as [Ht Hn].
  rewrite <-Hp in Ht, Hn. cbn in Ht, Hn.
  subst out. rewrite Hrun. cbn [fst snd log_append committed count log].
  split; [done|]. split; [done|]. split; [done|]. rewrite Hn. set_solver.
Qed.

(** X15. On every file the cursor and the connection are closed exactly
    when the run returns, and the file is closed exactly when it was opened:
    a file that does not open, a reader that raises and a row that lacks a
    column all leave the cursor and the connection open. *)
Theorem connection_closed_iff_returns_any_file (src : source) (t : table) :
  let out := run_source env json_dumps src t in
  (FileClose ∈ log out.1 ↔ FileOpen ∈ log out.1) ∧
  (FileOpen ∈ log out.1 ↔ src ≠ NoFile) ∧
  (CursorClose ∈ log out.1 ↔ out.2 = Ok tt) ∧
  (ConnClose ∈ log out.1 ↔ out.2 = Ok tt).
Proof.
  intros out. destruct src as [|rows stop].
  - change (log out.1) with [Print MsgStart]. change (out.2) with (@Raise unit OSError).
    repeat split; try done; intros Hin;
      by apply list_elem_of_singleton in Hin.
  - destruct (run_source_log env json_dumps (File rows stop) t)
      as [(? & _)|(l & Hl & Hcases)]; [done|].
    fold out in Hcases. rewrite Forall_forall in Hl.
    assert (Hnot : ∀ ev, ev = CursorClose ∨ ev = ConnClose → ev ∉ l).
    { intros ev Hev Hin. apply Hl in Hin. by destruct Hev as [-> | ->]. }
    destruct Hcases as [(c & Hres & Hlog)|(e & Hres & Hlog)]; rewrite Hres, Hlog.
    + repeat split; try done; intros _; set_solver.
    + split; [split; intros _; set_solver|].
      split; [split; [done|intros _; set_solver]|].
      split; (split; [|done]); intros Hin; exfalso;
        repeat (apply elem_of_cons in Hin as [Hin|Hin]; [done|]);
        apply elem_of_app in Hin as [Hin|Hin];
        try (by eapply Hnot; [|exact Hin]; auto);
        by apply list_elem_of_singleton in Hin.
Qed.

(** X16. Across batches the later row wins: on a server without faults,
    when no batch carries a code twice, the table holds for every code the
    values of the last row of the file that derives it, and a code that no
    row derives keeps what the table held. *)
Theorem last_write_wins_across_batches (rows : list row) (recs : list record)
    (t : table) :
  (∀ i, stmt_fault env i = false) →
  (∀ j, commit_fault env j = false) →
  Forall2 (λ r rec, transform json_dumps r = Ok rec) rows recs →
  Forall sendable recs →
  Forall (λ b, NoDup (code <$> b)) (paginate recs) →
  let out := run env json_dumps rows t in
  out.2 = Ok tt ∧
  count out.1 = length rows ∧
  ∀ c, committed out.1 !! c =
       match last (filter (λ rec, code rec = c) recs) with
       | Some rec => Some (stored_of rec)
       | None => t !! c
       end.
Proof.
  intros Hs Hc Hrows _ Hnd out.
  destruct (run_progress env json_dumps rows recs t Hrows) as (st & Hrun & Heq & Hp).
  destruct (replay_no_faults env (start t) (paginate recs) Hs Hc) as [Ht Hn].
  rewrite <-Hp in Ht, Hn. cbn in Ht, Hn.
  assert (Hkept : filter (λ b, NoDup (code <$> b)) (paginate recs) = paginate recs).
  { clear -Hnd. induction Hnd as [|b pages Hb _ IH]; [done|].
    by rewrite filter_cons_True, IH. }
  rewrite Hkept, concat_paginate in Ht, Hn.
  subst out. rewrite Hrun. cbn [fst snd log_append committed count].
  split; [done|]. split; [by rewrite Hn, (Forall2_length _ _ _ Hrows)|].
  intros c. rewrite Ht. apply lookup_foldl_upsert.
Qed.

(** C7. The persisted [updated_at] is the time of the server at the
    transaction of the upsert statement.  Whatever fails, every value of
    [updated_at] that a run has committed is the server's clock at the start
    of one of the run's statements, for a code that a row derives: it is no
    constant and no time of the client.  When nothing fails, a record gets
    the time of the statement that carries it, the last one that carries its
    code. *)
Theorem updated_at_is_server_time (rows : list row) (recs : list record)
    (t : table) :
  Forall2 (λ r rec, transform json_dumps r = Ok rec) rows recs →
  let out := run env json_dumps rows t in
  (∀ rec now, timestamp_in now <$> mogrify (args_of rec) !! 5 = Some (Some now)) ∧
  (∀ c ts, committed_at out.1 !! c = Some ts →
     ∃ j rec, j < length (statements (log out.1)) ∧ ts = server_time env j ∧
              rec ∈ recs ∧ code rec = c) ∧
  ((∀ i, stmt_fault env i = false) →
   (∀ i, commit_fault env i = false) →
   Forall sendable recs →
   ∀ j page rec,
     paginate recs !! j = Some page →
     NoDup (code <$> page) →
     rec ∈ page →
     (∀ j' page', j < j' → paginate recs !! j' = Some page' →
                  code rec ∉ code <$> page') →
     statements (log out.1) !! j = Some (statement_of page) ∧
     committed out.1 !! code rec = Some (stored_of rec) ∧
     committed_at out.1 !! code rec = Some (server_time env j)).
Proof.
  intros Hrows out. split; [done|].
  destruct (run_progress env json_dumps rows recs t Hrows) as (st & Hrun & Heq & Hp).
  pose proof (statements_are_pages env json_dumps rows recs t Hrows) as Hstmts.
  fold out in Hstmts.
  assert (Hat : committed_at out.1 = p_updated_at (replay env (start t) (paginate recs))).
  { subst out. rewrite Hrun, <-Hp. done. }
  assert (Htab : committed out.1 = p_table (replay env (start t) (paginate recs))).
  { subst out. rewrite Hrun, <-Hp. done. }
  clearbody out. split.
  - intros c ts Hc. rewrite Hat in Hc.
    apply replay_updated_at_origin in Hc
      as [Hc|(j & page & Hj & (rec & -> & Hin)%list_elem_of_fmap & ->)];
      [by cbn in Hc; rewrite lookup_empty in Hc|].
    exists j, rec. rewrite Hstmts, length_fmap. cbn.
    split; [by apply lookup_lt_Some in Hj|]. split; [done|]. split; [|done].
    rewrite <-(concat_paginate recs). apply list_elem_of_In, in_concat.
    exists page. split; apply list_elem_of_In; [|done].
    by eapply list_elem_of_lookup_2.
  - intros Hs Hc _ j page rec Hj Hnd Hin Hlast.
    split; [by rewrite Hstmts, list_lookup_fmap, Hj|]. split.
    + rewrite Htab. by apply (replay_table_last env (start t) (paginate recs) j page).
    + rewrite Hat, (replay_updated_at_last env (start t) (paginate recs) j page);
        [done|done|done|done|done| |done].
      by apply list_elem_of_fmap_2.
Qed.

End Outcomes.

(** ** Further runs on concrete files *)

Lemma reader_error_partial_import_witness :
  (run_source no_faults plain_dumps garbled_file ∅).2 = Raise UnicodeDecodeError ∧
  count (run_source no_faults plain_dumps garbled_file ∅).1
  = count (run no_faults plain_dumps (take 100 (numbered_rows 120)) ∅).1.
Proof.
  destruct (transform_rows plain_dumps (numbered_rows 120)) as [recs|e] eqn:E;
    [|vm_compute in E; discriminate E].
  destruct (reader_error_partial_import no_faults plain_dumps (numbered_rows 120) recs
              UnicodeDecodeError ∅ (transform_rows_Ok _ _ _ E))
    as (H1 & _ & _ & _ & _ & H2 & _).
  split; [exact H1|exact H2].
Defined.

Lemma batches_all_or_nothing_witness :
  ∃ recs applied,
    transform_rows plain_dumps (numbered_rows 250) = Ok recs ∧
    applied `sublist_of` paginate recs ∧
    committed (run flaky_faults plain_dumps (numbered_rows 250) ∅).1
    = foldl upsert_record ∅ (concat applied).
Proof.
  destruct (transform_rows plain_dumps (numbered_rows 250)) as [recs|e] eqn:E;
    [|vm_compute in E; discriminate E].
  destruct (batches_all_or_nothing flaky_faults plain_dumps (numbered_rows 250) recs ∅
              (transform_rows_Ok _ _ _ E)) as (applied & Hsub & _ & Ht & _).
  exists recs, applied. split; [reflexivity|]. split; [exact Hsub|exact Ht].
Defined.

Lemma count_never_under_reports_witness :
  count (run flaky_faults plain_dumps (numbered_rows 250) ∅).1 ≤ 250.
Proof.
  destruct (transform_rows plain_dumps (numbered_rows 250)) as [recs|e] eqn:E;
    [|vm_compute in E; discriminate E].
  destruct (count_never_under_reports flaky_faults plain_dumps (numbered_rows 250) recs ∅
              (transform_rows_Ok _ _ _ E)) as (applied & _ & _ & [_ Hc] & _).
  exact Hc.
Defined.

Lemma table_entries_after_run_witness :
  committed (run flaky_faults plain_dumps (numbered_rows 150)
               {["ABC123" := stored_of {| code := "ABC123"; description := "old";
                                          category := "all"; active := true;
                                          custom_fields := "{}";
                                          updated_by := "admin" |}]}).1 !! "ABC123"
  = Some (stored_of {| code := "ABC123"; description := "old";
                       category := "all"; active := true;
                       custom_fields := "{}"; updated_by := "admin" |}).
Proof.
  destruct (transform_rows plain_dumps (numbered_rows 150)) as [recs|e] eqn:E;
    [|vm_compute in E; discriminate E].
  rewrite (proj1 (table_entries_after_run flaky_faults plain_dumps (numbered_rows 150)
                    recs _ "ABC123" (transform_rows_Ok _ _ _ E))).
  - apply lookup_singleton_eq.
  - vm_compute in E. injection E as <-.
    apply (bool_decide_unpack _). vm_compute. exact I.
Defined.

Lemma import_without_faults_witness :
  count (run no_faults plain_dumps clashing_rows ∅).1 = 0 ∧
  committed (run no_faults plain_dumps clashing_rows ∅).1 = ∅.
Proof.
  destruct (transform_rows plain_dumps clashing_rows) as [recs|e] eqn:E;
    [|vm_compute in E; discriminate E].
  assert (Hsend : Forall sendable recs).
  { vm_compute in E. injection E as <-. repeat constructor. }
  destruct (import_without_faults no_faults plain_dumps clashing_rows recs ∅
              (λ _, eq_refl) (λ _, eq_refl) (transform_rows_Ok _ _ _ E) Hsend)
    as (_ & Ht & Hc).
  rewrite Ht, Hc. vm_compute in E. injection E as <-. vm_compute.
  split; reflexivity.
Defined.

Lemma reimport_changes_only_updated_at_witness :
  committed (run later_server plain_dumps revised_rows
               (committed (run no_faults plain_dumps revised_rows ∅).1)).1
  = committed (run no_faults plain_dumps revised_rows ∅).1.
Proof.
  destruct (transform_rows plain_dumps revised_rows) as [recs|e] eqn:E;
    [|vm_compute in E; discriminate E].
  assert (Hsend : Forall sendable recs).
  { vm_compute in E. injection E as <-. repeat constructor. }
  exact (proj1 (proj2 (reimport_changes_only_updated_at no_faults plain_dumps
                         later_server revised_rows recs ∅
                         (λ _, eq_refl) (λ _, eq_refl) (λ _, eq_refl) (λ _, eq_refl)
                         (transform_rows_Ok _ _ _ E) Hsend))).
Defined.

(** The row with the code 0-O is written by the second statement of each
    import: the first import gives it the time 1001 of the first server, the
    second the time 2001 of the later one. *)
Example reimport_rewrites_updated_at :
  let once := run no_faults plain_dumps revised_rows ∅ in
  let twice := run later_server plain_dumps revised_rows (committed once.1) in
  committed_at once.1 !! "0-O" = Some 1001 ∧
  committed_at twice.1 !! "0-O" = Some 2001 ∧
  committed_at once.1 !! "1-O" = Some 1000 ∧
  committed_at twice.1 !! "1-O" = Some 2000.
Proof. vm_compute. repeat split; reflexivity. Qed.

Lemma last_write_wins_across_batches_witness :
  (s_description <$>
     committed (run no_faults plain_dumps revised_rows ∅).1 !! "0-O")
  = Some (SqlString "revised").
Proof.
  destruct (transform_rows plain_dumps revised_rows) as [recs|e] eqn:E;
    [|vm_compute in E; discriminate E].
  assert (Hsend : Forall sendable recs).
  { vm_compute in E. injection E as <-. repeat constructor. }
  assert (Hnd : Forall (λ b, NoDup (code <$> b)) (paginate recs)).
  { vm_compute in E. injection E as <-.
    apply (bool_decide_unpack _). vm_compute. exact I. }
  rewrite (proj2 (proj2 (last_write_wins_across_batches no_faults plain_dumps
                           revised_rows recs ∅ (λ _, eq_refl) (λ _, eq_refl)
                           (transform_rows_Ok _ _ _ E) Hsend Hnd))).
  vm_compute in E. injection E as <-. vm_compute. reflexivity.
Defined.

Lemma updated_at_is_server_time_witness :
  committed_at (run no_faults plain_dumps [sample_row "XYZ9" "O" "visit" "TRUE"] ∅).1
    !! "XYZ9-O"
  = Some 1000.
Proof.
  destruct (transform_rows plain_dumps [sample_row "XYZ9" "O" "visit" "TRUE"])
    as [recs|e] eqn:E; [|vm_compute in E; discriminate E].
  pose proof (proj2 (proj2 (updated_at_is_server_time no_faults plain_dumps _ recs ∅
                              (transform_rows_Ok _ _ _ E)))
                (λ _, eq_refl) (λ _, eq_refl)) as H.
  vm_compute in E. injection E as <-.
  match type of H with Forall sendable [?r] → _ =>
    assert (Hsend : Forall sendable [r]) by (repeat constructor);
    assert (Hnd : NoDup (code <$> [r]))
      by (apply (bool_decide_unpack _); vm_compute; exact I);
    assert (Hin : r ∈ [r]) by (apply list_elem_of_singleton; reflexivity);
    assert (Hlast : ∀ j' page', 0 < j' → paginate [r] !! j' = Some page' →
                                code r ∉ code <$> page')
      by (intros [|j'] page' Hlt Hj'; [lia|discriminate Hj']);
    exact (proj2 (proj2 (H Hsend 0 [r] r eq_refl Hnd Hin Hlast)))
  end.
Defined.

Lemma nothing_imported_when_statements_fail_witness :
  (run stmt_faults plain_dumps (numbered_rows 150) ∅).2 = Ok tt ∧
  count (run stmt_faults plain_dumps (numbered_rows 150) ∅).1 = 0.
Proof.
  destruct (transform_rows plain_dumps (numbered_rows 150)) as [recs|e] eqn:E;
    [|vm_compute in E; discriminate E].
  destruct (nothing_imported_when_statements_fail stmt_faults plain_dumps
              (numbered_rows 150) recs ∅ (λ _, eq_refl) (transform_rows_Ok _ _ _ E))
    as (H1 & _ & H2 & _).
  split; [exact H1|exact H2].
Defined.

(** A flaky server: of three batches the first is rejected and the third is
    not committed; the count is 150 and the table holds the second batch. *)
Example run_on_flaky_server :
  let out := run flaky_faults plain_dumps (numbered_rows 250) ∅ in
  out.2 = Ok tt ∧ count out.1 = 150 ∧ size (committed out.1) = 100 ∧
  committed out.1 !! "0-O" = None ∧
  is_Some (committed out.1 !! "100-O") ∧
  committed out.1 !! "200-O" = None.
Proof. vm_compute. repeat split; eauto. Qed.
